(** * Drop the Spot: friend engine, rating aggregator, visibility filter
      and the React map client.

    The sources under [src/] are the single-page client:
    [src/frontend/src/App.js], whose first document is the component with
    accounts, filters, ratings and friends, and [src/unnamed/part_000],
    another revision of it that keeps the authentication state in an
    [AuthProvider].  The REST backend is not among the sources; its three
    invariant-bearing operations are modelled from the specification in
    [Module Core].  The client is embedded handler by handler in
    [Module App] and [Module AuthApp]. *)

From Stdlib Require Import ZArith QArith Lia.
From stdpp Require Import gmap strings list fin_maps.

(* ===================================================================== *)
(** ** Backend core *)
(* ===================================================================== *)

Module Core.

(** Identifiers are opaque and unique; natural numbers stand for them. *)
Abbreviation user_id := nat (only parsing).
Abbreviation request_id := nat (only parsing).
Abbreviation spot_id := nat (only parsing).

(** Modelled from the spec: the [User] record of the identity store (the
    backend that declares it is not under [src/]).  Only the fields the
    friend engine and the visibility filter read are kept. *)
Record User := mkUser {
  uid : user_id;
  username : string;
  friend_ids : gset user_id
}.

Inductive request_status := pending | accepted.

(** Modelled from the spec: the [FriendRequest] record; its [id] is the key
    under which the store holds it. *)
Record FriendRequest := mkFriendRequest {
  from_user_id : user_id;
  to_user_id : user_id;
  status : request_status
}.

(** Modelled from the spec: the [Spot] record with its rating aggregate.  The
    owner is absent on anonymous legacy spots. *)
Record Spot := mkSpot {
  owner_id : option user_id;
  title : string;
  rating_sum : Z;
  rating_count : Z
}.

(** Modelled from the spec: the [Rating] record. *)
Record Rating := mkRating {
  r_spot_id : spot_id;
  r_user_id : user_id;
  value : Z
}.

(** The document store: three keyed collections for users, requests and spots
    and the collection of rating documents, which carries no key of its
    own. *)
Record Store := mkStore {
  users : gmap user_id User;
  requests : gmap request_id FriendRequest;
  spots : gmap spot_id Spot;
  ratings : list Rating
}.

Inductive error :=
| InvalidTarget | AlreadyFriends | DuplicateRequest
| NotFound | Forbidden | InvalidState
| InvalidValue | Unauthorized.

Inductive result (A : Type) :=
| Ok (a : A)
| Err (e : error).
Arguments Ok {A} a.
Arguments Err {A} e.

Definition empty_store : Store := mkStore ∅ ∅ ∅ [].

(** *** Friend-relationship engine *)

Definition friends_of (s : Store) (a : user_id) : gset user_id :=
  from_option friend_ids ∅ (users s !! a).

Definition is_pending (r : FriendRequest) : bool :=
  match status r with pending => true | accepted => false end.

(** A request joins the unordered pair {a, b}, in either direction. *)
Definition between (a b : user_id) (r : FriendRequest) : bool :=
  bool_decide (from_user_id r = a ∧ to_user_id r = b) ||
  bool_decide (from_user_id r = b ∧ to_user_id r = a).

Definition pending_between (s : Store) (a b : user_id) : bool :=
  bool_decide (map_Exists (λ _ r, is_pending r && between a b r = true) (requests s)).

Definition with_friend (b : user_id) (u : User) : User :=
  mkUser (uid u) (username u) ({[b]} ∪ friend_ids u).

(** Modelled from the spec: [send_request(from, to)] of section 4.1; the
    backend handler behind POST /friends/request/{userId} is not under
    [src/]. *)
Definition send_request (from to : user_id) (s : Store) : result (Store * request_id) :=
  if bool_decide (from = to) then Err InvalidTarget
  else if bool_decide (to ∈ friends_of s from) then Err AlreadyFriends
  else if pending_between s from to then Err DuplicateRequest
  else
    let rid := fresh (dom (requests s)) in
    Ok (mkStore (users s)
                (<[rid := mkFriendRequest from to pending]> (requests s))
                (spots s) (ratings s),
        rid).

(** Modelled from the spec: [accept_request(request_id, acting_user)] of
    section 4.1; the backend handler behind POST /friends/accept/{requestId}
    is not under [src/].  On success both friend sets grow and the request
    record is removed in the same step; the friendship pair is returned. *)
Definition accept_request (rid : request_id) (acting_user : user_id) (s : Store)
  : result (Store * (user_id * user_id)) :=
  match requests s !! rid with
  | None => Err NotFound
  | Some r =>
      if negb (bool_decide (acting_user = to_user_id r)) then Err Forbidden
      else if negb (is_pending r) then Err InvalidState
      else
        let a := from_user_id r in
        let b := to_user_id r in
        Ok (mkStore (alter (with_friend a) b (alter (with_friend b) a (users s)))
                    (delete rid (requests s))
                    (spots s) (ratings s),
            (a, b))
  end.

(** The data-model invariants of section 3 that the friend engine relies
    on, in a form that can be decided on a concrete store. *)
Definition keys_agree (s : Store) : Prop :=
  map_Forall (λ i u, uid u = i) (users s).

Definition friends_symmetric (s : Store) : Prop :=
  map_Forall (λ a u, set_Forall (λ b, a ∈ friends_of s b) (friend_ids u)) (users s).

Definition endpoints_registered (s : Store) : Prop :=
  map_Forall (λ _ r, is_Some (users s !! from_user_id r) ∧
                     is_Some (users s !! to_user_id r)) (requests s).

Definition one_pending_per_pair (s : Store) : Prop :=
  map_Forall (λ i r, is_pending r = true →
    map_Forall (λ j r', is_pending r' && between (from_user_id r) (to_user_id r) r' = true → i = j)
               (requests s)) (requests s).

Definition friends_ok (s : Store) : Prop :=
  keys_agree s ∧ friends_symmetric s ∧ endpoints_registered s ∧ one_pending_per_pair s.

(** *** Rating aggregator *)

Definition rating_key (r : Rating) : spot_id * user_id := (r_spot_id r, r_user_id r).

(** At most one Rating per (spot_id, user_id) pair. *)
Definition ratings_unique (s : Store) : Prop :=
  NoDup (rating_key <$> ratings s).

Definition rating_of (sid : spot_id) (u : user_id) (r : Rating) : bool :=
  bool_decide (r_spot_id r = sid) && bool_decide (r_user_id r = u).

Definition prior_rating (sid : spot_id) (u : user_id) (rs : list Rating) : option Rating :=
  List.find (rating_of sid u) rs.

Definition replace_rating (sid : spot_id) (u : user_id) (v : Z) (rs : list Rating) : list Rating :=
  (λ r, if rating_of sid u r then mkRating sid u v else r) <$> rs.

(** [average_rating = rating_sum / rating_count] if the count is positive,
    else 0; it is derived on demand and never stored. *)
Definition average_rating (sp : Spot) : Q :=
  if (0 <? rating_count sp)%Z
  then (inject_Z (rating_sum sp) / inject_Z (rating_count sp))%Q
  else 0%Q.

Definition with_aggregate (sum count : Z) (sp : Spot) : Spot :=
  mkSpot (owner_id sp) (title sp) sum count.

(** Modelled from the spec: [submit_rating(spot_id, user_id, value)] of
    section 4.3; the backend handler behind POST /spots/{id}/rate is not
    under [src/].  The caller is [None] when the request is not
    authenticated.  A prior rating is replaced in place, a first rating is
    appended. *)
Definition submit_rating (sid : spot_id) (caller : option user_id) (v : Z) (s : Store)
  : result (Store * Q) :=
  match spots s !! sid with
  | None => Err NotFound
  | Some sp =>
      if negb ((1 <=? v)%Z && (v <=? 5)%Z) then Err InvalidValue
      else match caller with
      | None => Err Unauthorized
      | Some u =>
          let '(sp', rs') :=
            match prior_rating sid u (ratings s) with
            | Some old =>
                (with_aggregate (rating_sum sp + (v - value old)) (rating_count sp) sp,
                 replace_rating sid u v (ratings s))
            | None =>
                (with_aggregate (rating_sum sp + v) (rating_count sp + 1) sp,
                 ratings s ++ [mkRating sid u v])
            end in
          Ok (mkStore (users s) (requests s) (<[sid := sp']> (spots s)) rs',
              average_rating sp')
      end
  end.

(** What the rating documents of one spot add up to; the aggregate kept
    on the spot agrees with it. *)
Definition on_spot (sid : spot_id) (r : Rating) : bool :=
  bool_decide (r_spot_id r = sid).

Definition count_for (sid : spot_id) (rs : list Rating) : Z :=
  Z.of_nat (length (List.filter (on_spot sid) rs)).

Definition sum_for (sid : spot_id) (rs : list Rating) : Z :=
  foldr Z.add 0%Z (value <$> List.filter (on_spot sid) rs).

Definition aggregates_agree (s : Store) : Prop :=
  map_Forall (λ sid sp, rating_count sp = count_for sid (ratings s) ∧
                        rating_sum sp = sum_for sid (ratings s)) (spots s).

Definition ratings_ok (s : Store) : Prop :=
  ratings_unique s ∧ aggregates_agree s.

#[global] Instance friends_ok_dec (s : Store) : Decision (friends_ok s).
Proof.
  unfold friends_ok, keys_agree, friends_symmetric, endpoints_registered,
    one_pending_per_pair.
  apply _.
Defined.

#[global] Instance ratings_ok_dec (s : Store) : Decision (ratings_ok s).
Proof. unfold ratings_ok, ratings_unique, aggregates_agree. apply _. Defined.

(** *** Visibility filter *)

Inductive filter_mode := global | own | friends.

Definition all_spots (s : Store) : list Spot := (map_to_list (spots s)).*2.

Definition owned_by (u : User) (sp : Spot) : bool :=
  bool_decide (owner_id sp = Some (uid u)).

Definition owned_by_friend (u : User) (sp : Spot) : bool :=
  match owner_id sp with
  | Some o => bool_decide (o ∈ friend_ids u)
  | None => false
  end.

(** Modelled from the spec: the visibility filter of section 4.2, over the
    spots of the store and the requesting user, if any; the backend handler
    behind GET /spots is not under [src/]. *)
Definition visible_spots (requesting_user : option User) (mode : filter_mode) (s : Store)
  : result (list Spot) :=
  match mode, requesting_user with
  | global, _ => Ok (all_spots s)
  | own, None => Err Unauthorized
  | own, Some u => Ok (List.filter (owned_by u) (all_spots s))
  | friends, None => Err Unauthorized
  | friends, Some u => Ok (List.filter (owned_by_friend u) (all_spots s))
  end.

End Core.

(* ===================================================================== *)
(** ** The client: payloads, ambient stores and the handler monad *)
(* ===================================================================== *)

Module Client.

(** JavaScript strings are [string]s here, one character standing for one
    UTF-16 code unit, so that [String.length] is [.length] and [+:+] is
    template-string concatenation.  Numbers that are only passed along are
    [Z] (ratings, counts) or [Q] (coordinates, averages).  Response bodies
    are typed by endpoint, as the API contract of section 6 of the
    specification gives them. *)

(** [process.env.REACT_APP_BACKEND_URL] is fixed when the bundle is built. *)
Class Env := { BACKEND_URL : string }.

Definition API `{Env} : string := BACKEND_URL +:+ "/api".

(** Payloads of the endpoints the client talks to. *)
Record UserData := mkUserData {
  u_id : string;
  u_username : string;
  u_spots_count : nat;
  u_friends_count : nat
}.

Record AuthData := mkAuthData {
  access_token : string;
  auth_user : UserData
}.

Record Spot := mkSpot {
  s_id : string;
  s_title : string;
  s_average_rating : Q;
  s_rating_count : Z
}.

Record UserSummary := mkUserSummary {
  us_id : string;
  us_username : string;
  us_spots_count : nat;
  us_is_friend : bool
}.

Abbreviation LatLng := (Q * Q)%type.

Record NewSpot := mkNewSpot {
  title : string;
  description : string;
  photo : string;
  latitude : Q;
  longitude : Q
}.

Record AuthForm := mkAuthForm {
  f_username : string;
  f_email : string;
  f_password : string
}.

#[global] Instance UserData_eq_dec : EqDecision UserData.
Proof. solve_decision. Defined.

(** *** React state of the component and the mutable stores around it

    [State] holds the [useState] cells of [App] that the modelled handlers
    read or write (the friends list and the geolocation spinner are left
    out: no handler below touches them).  A handler is a closure created by
    one render, so it reads the cells of that render's [State] snapshot,
    while refs, [localStorage] and the axios defaults are read where they
    live, in the [World]. *)

Record State := mkState {
  user : option UserData;
  token : option string;
  spots : list Spot;
  showAddForm : bool;
  selectedSpot : option Spot;
  showAuthModal : bool;
  authMode : string;
  searchResults : list UserSummary;
  searchQuery : string;
  mapFilter : string;
  newSpot : NewSpot;
  currentLocation : option LatLng;
  authForm : AuthForm;
  loading : bool
}.

Definition with_user (v : option UserData) (s : State) : State :=
  mkState v (token s) (spots s) (showAddForm s) (selectedSpot s) (showAuthModal s) (authMode s) (searchResults s) (searchQuery s) (mapFilter s) (newSpot s) (currentLocation s) (authForm s) (loading s).

Definition with_token (v : option string) (s : State) : State :=
  mkState (user s) v (spots s) (showAddForm s) (selectedSpot s) (showAuthModal s) (authMode s) (searchResults s) (searchQuery s) (mapFilter s) (newSpot s) (currentLocation s) (authForm s) (loading s).

Definition with_spots (v : list Spot) (s : State) : State :=
  mkState (user s) (token s) v (showAddForm s) (selectedSpot s) (showAuthModal s) (authMode s) (searchResults s) (searchQuery s) (mapFilter s) (newSpot s) (currentLocation s) (authForm s) (loading s).

Definition with_showAddForm (v : bool) (s : State) : State :=
  mkState (user s) (token s) (spots s) v (selectedSpot s) (showAuthModal s) (authMode s) (searchResults s) (searchQuery s) (mapFilter s) (newSpot s) (currentLocation s) (authForm s) (loading s).

Definition with_selectedSpot (v : option Spot) (s : State) : State :=
  mkState (user s) (token s) (spots s) (showAddForm s) v (showAuthModal s) (authMode s) (searchResults s) (searchQuery s) (mapFilter s) (newSpot s) (currentLocation s) (authForm s) (loading s).

Definition with_showAuthModal (v : bool) (s : State) : State :=
  mkState (user s) (token s) (spots s) (showAddForm s) (selectedSpot s) v (authMode s) (searchResults s) (searchQuery s) (mapFilter s) (newSpot s) (currentLocation s) (authForm s) (loading s).

Definition with_authMode (v : string) (s : State) : State :=
  mkState (user s) (token s) (spots s) (showAddForm s) (selectedSpot s) (showAuthModal s) v (searchResults s) (searchQuery s) (mapFilter s) (newSpot s) (currentLocation s) (authForm s) (loading s).

Definition with_searchResults (v : list UserSummary) (s : State) : State :=
  mkState (user s) (token s) (spots s) (showAddForm s) (selectedSpot s) (showAuthModal s) (authMode s) v (searchQuery s) (mapFilter s) (newSpot s) (currentLocation s) (authForm s) (loading s).

Definition with_searchQuery (v : string) (s : State) : State :=
  mkState (user s) (token s) (spots s) (showAddForm s) (selectedSpot s) (showAuthModal s) (authMode s) (searchResults s) v (mapFilter s) (newSpot s) (currentLocation s) (authForm s) (loading s).

Definition with_mapFilter (v : string) (s : State) : State :=
  mkState (user s) (token s) (spots s) (showAddForm s) (selectedSpot s) (showAuthModal s) (authMode s) (searchResults s) (searchQuery s) v (newSpot s) (currentLocation s) (authForm s) (loading s).

Definition with_newSpot (v : NewSpot) (s : State) : State :=
  mkState (user s) (token s) (spots s) (showAddForm s) (selectedSpot s) (showAuthModal s) (authMode s) (searchResults s) (searchQuery s) (mapFilter s) v (currentLocation s) (authForm s) (loading s).

Definition with_currentLocation (v : option LatLng) (s : State) : State :=
  mkState (user s) (token s) (spots s) (showAddForm s) (selectedSpot s) (showAuthModal s) (authMode s) (searchResults s) (searchQuery s) (mapFilter s) (newSpot s) v (authForm s) (loading s).

Definition with_authForm (v : AuthForm) (s : State) : State :=
  mkState (user s) (token s) (spots s) (showAddForm s) (selectedSpot s) (showAuthModal s) (authMode s) (searchResults s) (searchQuery s) (mapFilter s) (newSpot s) (currentLocation s) v (loading s).

Definition with_loading (v : bool) (s : State) : State :=
  mkState (user s) (token s) (spots s) (showAddForm s) (selectedSpot s) (showAuthModal s) (authMode s) (searchResults s) (searchQuery s) (mapFilter s) (newSpot s) (currentLocation s) (authForm s) v.

Record World := mkWorld {
  state : State;
  mapInstanceRef : bool;
  addSpotMarkerRef : option LatLng;
  localStorage : gmap string string;
  headers : gmap string string
}.

Definition with_state (v : State) (w : World) : World :=
  mkWorld v (mapInstanceRef w) (addSpotMarkerRef w) (localStorage w) (headers w).

Definition with_mapInstanceRef (v : bool) (w : World) : World :=
  mkWorld (state w) v (addSpotMarkerRef w) (localStorage w) (headers w).

Definition with_addSpotMarkerRef (v : option LatLng) (w : World) : World :=
  mkWorld (state w) (mapInstanceRef w) v (localStorage w) (headers w).

Definition with_localStorage (v : gmap string string) (w : World) : World :=
  mkWorld (state w) (mapInstanceRef w) (addSpotMarkerRef w) v (headers w).

Definition with_headers (v : gmap string string) (w : World) : World :=
  mkWorld (state w) (mapInstanceRef w) (addSpotMarkerRef w) (localStorage w) v.

(** *** HTTP requests, responses and effects *)

Inductive http_method := GET | POST.

Inductive body :=
| NoBody
| Credentials (username password : string)
| Registration (username email password : string)
| RatingBody (rating : Z).

(** What leaves the browser: the [Authorization] value is the shared axios
    default at the moment the request is sent. *)
Record request := mkRequest {
  method : http_method;
  url : string;
  payload_body : body;
  authorization : option string
}.

Inductive kind := KUser | KAuth | KSpots | KUsers | KUnit.

(** [response.data] by endpoint. *)
Definition payload (kd : kind) : Type :=
  match kd with
  | KUser => UserData
  | KAuth => AuthData
  | KSpots => list Spot
  | KUsers => list UserSummary
  | KUnit => unit
  end.

(** [error.response?.data?.detail] and [error.response?.status]. *)
Record http_error := mkHttpError {
  detail : option string;
  status : option nat
}.

(** A promise settles: [await] returns the response or throws. *)
Inductive outcome (A : Type) :=
| Resolved (data : A)
| Rejected (error : http_error).
Arguments Resolved {A} data.
Arguments Rejected {A} error.

Inductive toast_kind := toast_success | toast_error.

(** The effects of running a piece of handler code: a request goes out and
    the rest of the [async] function, a closure, waits for the promise to
    settle; a dialog or a toast is shown.  Console output is not recorded. *)
#[warnings="-register-all"]
Inductive effect : Type :=
| Http (kd : kind) (r : request)
       (k : outcome (payload kd) → World → unit * World * list effect)
| Alert (msg : string)
| Toast (t : toast_kind) (msg : string).

(** Synchronous handler code: state passing over the [World] with the
    effects emitted on the way. *)
Definition M (A : Type) : Type := World → A * World * list effect.

#[global] Instance M_ret : MRet M := λ A a w, (a, w, []).

#[global] Instance M_bind : MBind M := λ A B f m w,
  let '(a, w1, e1) := m w in
  let '(b, w2, e2) := f a w1 in
  (b, w2, e1 ++ e2).

Definition modify (f : World → World) : M unit := λ w, (tt, f w, []).
Definition emit (e : effect) : M unit := λ w, (tt, w, [e]).
Definition read {A} (f : World → A) : M A := λ w, (f w, w, []).
Definition skip : M unit := mret tt.
Definition when (b : bool) (m : M unit) : M unit := if b then m else skip.

(** The world after running [m] and the effects it emitted. *)
Definition exec {A} (m : M A) (w : World) : World := (m w).1.2.
Definition effects_of {A} (m : M A) (w : World) : list effect := (m w).2.

Definition request_of (e : effect) : option request :=
  match e with
  | Http _ r _ => Some r
  | _ => None
  end.

Definition requests_in (es : list effect) : list request := omap request_of es.

(** [useState] setters. *)
Definition set_state (f : State → State) : M unit :=
  modify (λ w, with_state (f (state w)) w).

Definition setUser v := set_state (with_user v).
Definition setToken v := set_state (with_token v).
Definition setSpots v := set_state (with_spots v).
Definition setShowAddForm v := set_state (with_showAddForm v).
Definition setSelectedSpot v := set_state (with_selectedSpot v).
Definition setShowAuthModal v := set_state (with_showAuthModal v).
Definition setAuthMode v := set_state (with_authMode v).
Definition setSearchResults v := set_state (with_searchResults v).
Definition setSearchQuery v := set_state (with_searchQuery v).
Definition setMapFilter v := set_state (with_mapFilter v).
Definition setAuthForm v := set_state (with_authForm v).
Definition setLoading v := set_state (with_loading v).

(** [setNewSpot(prev => ({ ...prev, latitude, longitude }))]. *)
Definition setNewSpot_latlng (lat lng : Q) : M unit :=
  set_state (λ s, with_newSpot
    (mkNewSpot (title (newSpot s)) (description (newSpot s)) (photo (newSpot s)) lat lng) s).

(** [localStorage] and [axios.defaults.headers.common]. *)
Definition localStorage_setItem (k v : string) : M unit :=
  modify (λ w, with_localStorage (<[k := v]> (localStorage w)) w).
Definition localStorage_removeItem (k : string) : M unit :=
  modify (λ w, with_localStorage (delete k (localStorage w)) w).
Definition set_default_header (k v : string) : M unit :=
  modify (λ w, with_headers (<[k := v]> (headers w)) w).
Definition delete_default_header (k : string) : M unit :=
  modify (λ w, with_headers (delete k (headers w)) w).

Definition send (kd : kind) (m : http_method) (u : string) (b : body)
    (k : outcome (payload kd) → M unit) : M unit :=
  λ w, (tt, w, [Http kd (mkRequest m u b (headers w !! "Authorization")) k]).

Definition axios_get (kd : kind) (u : string) (k : outcome (payload kd) → M unit) : M unit :=
  send kd GET u NoBody k.
Definition axios_post (kd : kind) (u : string) (b : body)
    (k : outcome (payload kd) → M unit) : M unit :=
  send kd POST u b k.

Definition alert (msg : string) : M unit := emit (Alert msg).
Definition toast (t : toast_kind) (msg : string) : M unit := emit (Toast t msg).

(** JavaScript truthiness of a string or [null]/[undefined], and [a || b]. *)
Definition truthy (s : string) : bool := negb (String.eqb s "").
Definition or_else (a : option string) (b : string) : string :=
  match a with
  | Some s => if truthy s then s else b
  | None => b
  end.

Definition emptyAuthForm : AuthForm := mkAuthForm "" "" "".

(** The default map centre, Amsterdam. *)
Definition default_latitude : Q := 52.3676%Q.
Definition default_longitude : Q := 4.9041%Q.

End Client.

(* ===================================================================== *)
(** ** [src/frontend/src/App.js] *)
(* ===================================================================== *)

Module App.
Import Client.

Section Component.
Context `{Env}.

(** The [useState] initial values; the token cell starts from
    [localStorage.getItem('token')].  No map exists before the first
    effects run, and the shared axios instance carries no default
    [Authorization] header. *)
Definition initialState (ls : gmap string string) : State :=
  mkState None (ls !! "token") [] false None false "login" [] "" "global"
          (mkNewSpot "" "" "" default_latitude default_longitude)
          None emptyAuthForm false.

Definition initialWorld (ls : gmap string string) : World :=
  mkWorld (initialState ls) false None ls ∅.

Definition fetchUserProfile : M unit :=
  axios_get KUser (API +:+ "/auth/me") (λ response,
    match response with
    | Resolved data => setUser (Some data)
    | Rejected _ =>
        localStorage_removeItem "token" ;;
        setToken None ;;
        setUser None ;;
        delete_default_header "Authorization"
    end).

Definition loadSpots (props : State) : M unit :=
  axios_get KSpots (API +:+ "/spots?filter_type=" +:+ mapFilter props) (λ response,
    match response with
    | Resolved data => setSpots data
    | Rejected _ => setSpots []
    end).

Definition handleLogin (props : State) : M unit :=
  setLoading true ;;
  axios_post KAuth (API +:+ "/auth/login")
    (Credentials (f_username (authForm props)) (f_password (authForm props)))
    (λ response,
      (match response with
       | Resolved data =>
           localStorage_setItem "token" (access_token data) ;;
           setToken (Some (access_token data)) ;;
           setUser (Some (auth_user data)) ;;
           set_default_header "Authorization" ("Bearer " +:+ access_token data) ;;
           setShowAuthModal false ;;
           setAuthForm emptyAuthForm ;;
           alert ("Welcome back, " +:+ u_username (auth_user data) +:+ "!")
       | Rejected error => alert (or_else (detail error) "Login failed")
       end) ;;
      setLoading false).

Definition handleRegister (props : State) : M unit :=
  setLoading true ;;
  axios_post KAuth (API +:+ "/auth/register")
    (Registration (f_username (authForm props)) (f_email (authForm props))
                  (f_password (authForm props)))
    (λ response,
      (match response with
       | Resolved data =>
           localStorage_setItem "token" (access_token data) ;;
           setToken (Some (access_token data)) ;;
           setUser (Some (auth_user data)) ;;
           set_default_header "Authorization" ("Bearer " +:+ access_token data) ;;
           setShowAuthModal false ;;
           setAuthForm emptyAuthForm ;;
           alert ("Welcome to Drop the Spot, " +:+ u_username (auth_user data) +:+ "!")
       | Rejected error => alert (or_else (detail error) "Registration failed")
       end) ;;
      setLoading false).

Definition handleLogout : M unit :=
  localStorage_removeItem "token" ;;
  setToken None ;;
  setUser None ;;
  delete_default_header "Authorization" ;;
  setMapFilter "global" ;;
  alert "Logged out successfully".

(** The draggable marker is kept as its position; its [dragend] callback,
    which copies the position into [newSpot], is not an event of the model. *)
Definition handleAddSpotClick (props : State) : M unit :=
  match user props with
  | None => setShowAuthModal true
  | Some _ =>
      setShowAddForm true ;;
      setSelectedSpot None ;;
      map ← read mapInstanceRef;
      marker ← read addSpotMarkerRef;
      when (map && negb (bool_decide (is_Some marker))) (
        let lat := from_option fst default_latitude (currentLocation props) in
        let lng := from_option snd default_longitude (currentLocation props) in
        modify (with_addSpotMarkerRef (Some (lat, lng))) ;;
        setNewSpot_latlng lat lng)
  end.

Definition handleCancelAdd : M unit :=
  setShowAddForm false ;;
  map ← read mapInstanceRef;
  marker ← read addSpotMarkerRef;
  when (bool_decide (is_Some marker) && map) (modify (with_addSpotMarkerRef None)).

Definition handleRateSpot (props : State) (spotId : string) (rating : Z) : M unit :=
  match user props with
  | None => setShowAuthModal true
  | Some _ =>
      axios_post KUnit (API +:+ "/spots/" +:+ spotId +:+ "/rate") (RatingBody rating)
        (λ response,
          match response with
          | Resolved _ =>
              alert "Rating submitted!" ;;
              loadSpots props ;;
              setSelectedSpot None
          | Rejected _ => alert "Error submitting rating"
          end)
  end.

Definition searchUsers (query : string) : M unit :=
  if negb (truthy query) || (String.length query <? 2)%nat then setSearchResults []
  else
    axios_get KUsers (API +:+ "/users/search?q=" +:+ query) (λ response,
      match response with
      | Resolved data => setSearchResults data
      | Rejected _ => skip
      end).

(** The search box of the friends modal:
    [onChange={(e) => { setSearchQuery(e.target.value);
    searchUsers(e.target.value); }}]. *)
Definition searchInputChange (v : string) : M unit :=
  setSearchQuery v ;;
  searchUsers v.

(** *** What a render puts on screen: the click handlers by widget *)

(** The three filter buttons of the header, present only under [user &&]. *)
Definition filterButtons (props : State) : list (M unit) :=
  match user props with
  | Some _ => [setMapFilter "global"; setMapFilter "own"; setMapFilter "friends"]
  | None => []
  end.

(** The star buttons of the spot details modal:
    [[1, 2, 3, 4, 5].map(star => <button onClick={() =>
    handleRateSpot(selectedSpot.id, star)}>)], under [selectedSpot &&] and
    [user &&]. *)
Definition starValues : list Z := [1; 2; 3; 4; 5]%Z.

Definition starButtons (props : State) : list (M unit) :=
  match selectedSpot props, user props with
  | Some spot, Some _ => (λ star, handleRateSpot props (s_id spot) star) <$> starValues
  | _, _ => []
  end.

(** The footer's second line. *)
Definition viewingLabel (mapFilter : string) : string :=
  if String.eqb mapFilter "global" then "All public spots"
  else if String.eqb mapFilter "own" then "Your spots"
  else "Your + friends' spots".

Definition footerViewing (props : State) : option string :=
  match user props with
  | Some _ => Some ("Viewing: " +:+ viewingLabel (mapFilter props))
  | None => None
  end.

(** *** [useEffect] hooks *)

(** [useEffect(() => { if (token) {...} }, [token])]. *)
Definition tokenEffect (props : State) : M unit :=
  match token props with
  | Some t =>
      if truthy t then
        set_default_header "Authorization" ("Bearer " +:+ t) ;;
        fetchUserProfile
      else skip
  | None => skip
  end.

(** The map is created once, on mount; [getCurrentLocation] only drives the
    geolocation cells and is left out. *)
Definition mapEffect (props : State) : M unit :=
  map ← read mapInstanceRef;
  when (negb map) (
    modify (with_mapInstanceRef true) ;;
    loadSpots props).

(** [useEffect(() => { if (mapInstanceRef.current) loadSpots(); },
    [mapFilter, user])]. *)
Definition filterEffect (props : State) : M unit :=
  map ← read mapInstanceRef;
  when map (loadSpots props).

Definition mountEffects (props : State) : M unit :=
  tokenEffect props ;;
  mapEffect props ;;
  filterEffect props.

(** After a commit the hooks whose dependencies changed run, in the order
    they are declared: first the one on [[token]], then the one on
    [[mapFilter, user]].  React compares the user object by identity; the
    comparison here is by value. *)
Definition updateEffects (before after : State) : M unit :=
  (if bool_decide (token before = token after) then skip else tokenEffect after) ;;
  (if bool_decide (mapFilter before = mapFilter after) &&
      bool_decide (user before = user after)
   then skip else filterEffect after).

(** *** The event loop

    Between two events nothing runs.  An event is a click or keystroke on a
    widget that the current render shows, or the settling of one of the
    requests in flight, which resumes the waiting closure.  The state
    updates of one event are committed together and the hooks run after the
    commit. *)

Record inflight := mkInflight {
  i_kind : kind;
  i_request : request;
  i_resume : outcome (payload i_kind) → M unit
}.

Definition inflight_of (e : effect) : option inflight :=
  match e with
  | Http kd r k => Some (mkInflight kd r k)
  | _ => None
  end.

Record Machine := mkMachine {
  world : World;
  pending : list inflight;
  sent : list request
}.

(** The widgets of the header, the auth modal, the map markers and the spot
    details modal.  The add-spot form and the friends modal are not part of
    the loop; [searchUsers] above is the friends modal's search box. *)
Inductive filter_button := GlobalButton | MySpotsButton | FriendsButton.
Inductive auth_field := UsernameInput | EmailInput | PasswordInput.

Inductive event :=
| ClickLoginSignUp
| ClickFilter (b : filter_button)
| ClickAddSpot
| ClickLogout
| CancelAdd
| CloseAuthModal
| TypeAuthField (f : auth_field) (v : string)
| SwitchAuthMode
| SubmitAuthForm
| ClickMarker (i : nat)
| CloseSpotDetails
| ClickStar (i : nat)
| Settle (n : nat) (kd : kind) (o : outcome (payload kd)).

Definition filter_index (b : filter_button) : nat :=
  match b with GlobalButton => 0 | MySpotsButton => 1 | FriendsButton => 2 end.

Definition typeAuthField (props : State) (f : auth_field) (v : string) : option (M unit) :=
  let form := authForm props in
  match f with
  | UsernameInput => Some (setAuthForm (mkAuthForm v (f_email form) (f_password form)))
  | EmailInput =>
      if String.eqb (authMode props) "register"
      then Some (setAuthForm (mkAuthForm (f_username form) v (f_password form)))
      else None
  | PasswordInput => Some (setAuthForm (mkAuthForm (f_username form) (f_email form) v))
  end.

(** The handler a widget of the current render is bound to; [None] when the
    render does not show the widget. *)
Definition on (ev : event) (props : State) : option (M unit) :=
  match ev with
  | ClickLoginSignUp =>
      match user props with None => Some (setShowAuthModal true) | Some _ => None end
  | ClickFilter b => filterButtons props !! filter_index b
  | ClickAddSpot =>
      match user props with Some _ => Some (handleAddSpotClick props) | None => None end
  | ClickLogout =>
      match user props with Some _ => Some handleLogout | None => None end
  | CancelAdd => if showAddForm props then Some handleCancelAdd else None
  | CloseAuthModal => if showAuthModal props then Some (setShowAuthModal false) else None
  | TypeAuthField f v => if showAuthModal props then typeAuthField props f v else None
  | SwitchAuthMode =>
      if showAuthModal props
      then Some (setAuthMode (if String.eqb (authMode props) "login" then "register" else "login"))
      else None
  | SubmitAuthForm =>
      if showAuthModal props && negb (loading props)
      then Some (if String.eqb (authMode props) "login"
                 then handleLogin props else handleRegister props)
      else None
  | ClickMarker i => (λ spot, setSelectedSpot (Some spot)) <$> spots props !! i
  | CloseSpotDetails =>
      match selectedSpot props with Some _ => Some (setSelectedSpot None) | None => None end
  | ClickStar i => starButtons props !! i
  | Settle _ _ _ => None
  end.

#[global] Instance kind_eq_dec : EqDecision kind.
Proof. solve_decision. Defined.

Definition resume (fl : inflight) (kd : kind) (o : outcome (payload kd)) : option (M unit) :=
  match decide (kd = i_kind fl) with
  | left e => Some (i_resume fl (eq_rect kd (λ k, outcome (payload k)) o (i_kind fl) e))
  | right _ => None
  end.

(** Run a piece of code, then the hooks, and queue what was sent. *)
Definition commit (m : Machine) (code : M unit) : Machine :=
  let '(_, w1, e1) := code (world m) in
  let '(_, w2, e2) := updateEffects (state (world m)) (state w1) w1 in
  mkMachine w2
            (pending m ++ omap inflight_of (e1 ++ e2))
            (sent m ++ requests_in (e1 ++ e2)).

Definition step (ev : event) (m : Machine) : option Machine :=
  match ev with
  | Settle n kd o =>
      fl ← pending m !! n;
      code ← resume fl kd o;
      Some (commit (mkMachine (world m) (delete n (pending m)) (sent m)) code)
  | _ =>
      code ← on ev (state (world m));
      Some (commit m code)
  end.

Fixpoint run (evs : list event) (m : Machine) : option Machine :=
  match evs with
  | [] => Some m
  | ev :: evs => m' ← step ev m; run evs m'
  end.

(** The page is opened with [ls] in [localStorage]: first render, then all
    hooks. *)
Definition mount (ls : gmap string string) : Machine :=
  let '(_, w, es) := mountEffects (initialState ls) (initialWorld ls) in
  mkMachine w (omap inflight_of es) (requests_in es).

End Component.
End App.

(* ===================================================================== *)
(** ** The revision with an [AuthProvider] ([src/unnamed/part_000]) *)
(* ===================================================================== *)

Module AuthApp.
Import Client.

Section Component.
Context `{Env}.

(** The provider's [loading] cell starts out [true]. *)
Definition initialState (ls : gmap string string) : State :=
  mkState None (ls !! "token") [] false None false "login" [] "" "global"
          (mkNewSpot "" "" "" default_latitude default_longitude)
          None emptyAuthForm true.

Definition logout : M unit :=
  localStorage_removeItem "token" ;;
  setToken None ;;
  setUser None ;;
  delete_default_header "Authorization" ;;
  toast toast_success "Logged out successfully".

Definition fetchUserProfile : M unit :=
  axios_get KUser (API +:+ "/auth/me") (λ response,
    (match response with
     | Resolved data => setUser (Some data)
     | Rejected _ => logout
     end) ;;
    setLoading false).

(** [login] and [register] resolve to a boolean that the auth modal awaits;
    [resolve] is the rest of that caller. *)
Definition login (username password : string) (resolve : bool → M unit) : M unit :=
  axios_post KAuth (API +:+ "/auth/login") (Credentials username password)
    (λ response,
      match response with
      | Resolved data =>
          localStorage_setItem "token" (access_token data) ;;
          setToken (Some (access_token data)) ;;
          setUser (Some (auth_user data)) ;;
          set_default_header "Authorization" ("Bearer " +:+ access_token data) ;;
          toast toast_success ("Welcome back, " +:+ u_username (auth_user data) +:+ "!") ;;
          resolve true
      | Rejected error =>
          toast toast_error (or_else (detail error) "Login failed") ;;
          resolve false
      end).

Definition register (username email password : string) (resolve : bool → M unit) : M unit :=
  axios_post KAuth (API +:+ "/auth/register") (Registration username email password)
    (λ response,
      match response with
      | Resolved data =>
          localStorage_setItem "token" (access_token data) ;;
          setToken (Some (access_token data)) ;;
          setUser (Some (auth_user data)) ;;
          set_default_header "Authorization" ("Bearer " +:+ access_token data) ;;
          toast toast_success
            ("Welcome to Drop the Spot, " +:+ u_username (auth_user data) +:+ "!") ;;
          resolve true
      | Rejected error =>
          toast toast_error (or_else (detail error) "Registration failed") ;;
          resolve false
      end).

(** [handleSubmit] of the [AuthModal], the one caller of [login] and
    [register]: on success it closes the modal ([onClose]) and clears the
    form.  The modal's own spinner cell is left out. *)
Definition handleSubmit (props : State) : M unit :=
  let rest := λ success : bool,
    when success (setShowAuthModal false ;; setAuthForm emptyAuthForm) in
  if String.eqb (authMode props) "login"
  then login (f_username (authForm props)) (f_password (authForm props)) rest
  else register (f_username (authForm props)) (f_email (authForm props))
                (f_password (authForm props)) rest.

(** This revision keeps the old spots when the request fails. *)
Definition loadSpots (props : State) : M unit :=
  axios_get KSpots (API +:+ "/spots?filter_type=" +:+ mapFilter props) (λ response,
    match response with
    | Resolved data => setSpots data
    | Rejected error =>
        when (bool_decide (status error = Some 401%nat))
             (toast toast_error "Please log in to view filtered spots")
    end).

Definition handleAddSpotClick (props : State) : M unit :=
  match user props with
  | None => setShowAuthModal true
  | Some _ =>
      setShowAddForm true ;;
      setSelectedSpot None ;;
      map ← read mapInstanceRef;
      marker ← read addSpotMarkerRef;
      when (map && negb (bool_decide (is_Some marker))) (
        let lat := from_option fst default_latitude (currentLocation props) in
        let lng := from_option snd default_longitude (currentLocation props) in
        modify (with_addSpotMarkerRef (Some (lat, lng))) ;;
        setNewSpot_latlng lat lng)
  end.

Definition handleRateSpot (props : State) (spotId : string) (rating : Z) : M unit :=
  match user props with
  | None => setShowAuthModal true
  | Some _ =>
      axios_post KUnit (API +:+ "/spots/" +:+ spotId +:+ "/rate") (RatingBody rating)
        (λ response,
          match response with
          | Resolved _ =>
              toast toast_success "Rating submitted!" ;;
              loadSpots props ;;
              setSelectedSpot None
          | Rejected _ => toast toast_error "Error submitting rating"
          end)
  end.

(** The [StarRating] component: [[...Array(5)].map((_, index) => ...)] with
    [starValue = index + 1] and the click handler
    [() => !readOnly && onRate && onRate(starValue)]. *)
Definition starValue (index : nat) : Z := (Z.of_nat index + 1)%Z.

Definition StarRating (onRate : option (Z → M unit)) (readOnly : bool) : list (M unit) :=
  (λ index,
     if negb readOnly then
       match onRate with
       | Some rate => rate (starValue index)
       | None => skip
       end
     else skip) <$> seq 0 5.

(** The star widget as [App] mounts it in the spot details modal, which is
    shown under [selectedSpot && !showAddForm] once the provider has
    stopped loading. *)
Definition starButtons (props : State) : list (M unit) :=
  if loading props then []
  else match selectedSpot props with
  | Some spot =>
      if showAddForm props then []
      else StarRating (Some (λ rating, handleRateSpot props (s_id spot) rating))
                      (negb (bool_decide (is_Some (user props))))
  | None => []
  end.

End Component.
End AuthApp.

(** A build of the client against a local backend, for the concrete runs
    below. *)
Definition localEnv : Client.Env := {| Client.BACKEND_URL := "http://localhost:8001" |}.

(** *** Runs used below *)

Definition alice : Client.UserData := Client.mkUserData "u-alice" "alice" 2 1.

Definition bench : Client.Spot := Client.mkSpot "s-bench" "Canal bench" 0%Q 0%Z.

(** A fresh browser: the visitor logs in, picks the friends filter while the
    profile request issued by the token hook is still in flight, and then
    that request fails. *)
Definition stale_profile_run : list App.event :=
  [ App.ClickLoginSignUp;
    App.TypeAuthField App.UsernameInput "alice";
    App.TypeAuthField App.PasswordInput "secret";
    App.SubmitAuthForm;
    App.Settle 2 Client.KAuth (Client.Resolved (Client.mkAuthData "tok" alice));
    App.ClickFilter App.FriendsButton;
    App.Settle 2 Client.KUser (Client.Rejected (Client.mkHttpError None (Some 503%nat))) ].

(** The visitor logs in, the first spot list arrives, and the fourth star
    of the bench is clicked. *)
Definition rating_run : list App.event :=
  [ App.Settle 0 Client.KSpots (Client.Resolved [bench]);
    App.ClickLoginSignUp;
    App.TypeAuthField App.UsernameInput "alice";
    App.TypeAuthField App.PasswordInput "secret";
    App.SubmitAuthForm;
    App.Settle 1 Client.KAuth (Client.Resolved (Client.mkAuthData "tok" alice));
    App.ClickMarker 0;
    App.ClickStar 3 ].

(** A store with one spot each of users 1, 2 and 3 and an anonymous legacy
    spot; users 1 and 2 are friends. *)
Definition ann : Core.User := Core.mkUser 1 "ann" {[2]}.
Definition ben : Core.User := Core.mkUser 2 "ben" {[1]}.
Definition cat : Core.User := Core.mkUser 3 "cat" ∅.

Definition town : Core.Store :=
  Core.mkStore
    (<[1 := ann]> (<[2 := ben]> (<[3 := cat]> ∅)))
    ∅
    (<[10 := Core.mkSpot (Some 1) "Pier" 0 0]>
       (<[11 := Core.mkSpot (Some 2) "Roof" 0 0]>
          (<[12 := Core.mkSpot (Some 3) "Dune" 0 0]>
             (<[13 := Core.mkSpot None "Old quay" 0 0]> ∅))))
    [].

(** Cat has asked Ann to be friends. *)
Definition town_request : Core.Store :=
  Core.mkStore (Core.users town)
               (<[0 := Core.mkFriendRequest 3 1 Core.pending]> ∅)
               (Core.spots town) [].

(** Ann has accepted. *)
Definition town_accepted : Core.Store :=
  Core.mkStore
    (<[1 := Core.mkUser 1 "ann" {[2; 3]}]>
       (<[2 := ben]> (<[3 := Core.mkUser 3 "cat" {[1]}]> ∅)))
    ∅ (Core.spots town) [].

(** Ben has rated the pier with a 4. *)
Definition town_rated : Core.Store :=
  Core.mkStore (Core.users town) ∅
               (<[10 := Core.mkSpot (Some 1) "Pier" 4 1]> (Core.spots town))
               [Core.mkRating 10 2 4].

(** *** Predicates on what the client sends *)

Definition rating_in_range (r : Client.request) : Prop :=
  match Client.payload_body r with
  | Client.RatingBody v => (1 ≤ v ≤ 5)%Z
  | _ => True
  end.

(** An effect, and everything the closure it leaves behind can ever emit,
    sends only requests that satisfy [P]. *)
#[warnings="-register-all"]
Inductive sends_only (P : Client.request → Prop) : Client.effect → Prop :=
| sends_only_http kd r k :
    P r →
    (∀ o w, Forall (sends_only P) (k o w).2) →
    sends_only P (Client.Http kd r k)
| sends_only_alert msg : sends_only P (Client.Alert msg)
| sends_only_toast t msg : sends_only P (Client.Toast t msg).

Definition obeys {A} (P : Client.request → Prop) (m : Client.M A) : Prop :=
  ∀ w, Forall (sends_only P) (m w).2.

Definition machine_obeys (P : Client.request → Prop) (m : App.Machine) : Prop :=
  Forall P (App.sent m) ∧
  Forall (λ fl, ∀ o, obeys P (App.i_resume fl o)) (App.pending m).

(** What "logged in with [data]" and "logged out" mean on the three places
    that hold the credential and on the user cell. *)
Definition logged_in (data : Client.AuthData) (w : Client.World) : Prop :=
  Client.headers w !! "Authorization" = Some ("Bearer " +:+ Client.access_token data) ∧
  Client.localStorage w !! "token" = Some (Client.access_token data) ∧
  Client.token (Client.state w) = Some (Client.access_token data) ∧
  Client.user (Client.state w) = Some (Client.auth_user data).

Definition logged_out (w : Client.World) : Prop :=
  Client.headers w !! "Authorization" = None ∧
  Client.localStorage w !! "token" = None ∧
  Client.token (Client.state w) = None ∧
  Client.user (Client.state w) = None.

(* ===================================================================== *)
(** ** [App.js]: the add-spot form, the friends modal and geolocation *)
(* ===================================================================== *)

Module AppModals.
Import Client.

(** Items of GET /friends and GET /friends/requests as the friends modal
    reads them. *)
Record FriendSummary := mkFriendSummary {
  fs_id : string;
  fs_username : string;
  fs_spots_count : nat
}.

Record PendingRequest := mkPendingRequest {
  pr_id : string;
  pr_from_username : string;
  pr_created_at : string
}.

(** The [useState] cells of [App] that [Client.State] leaves out, and the
    page as a whole. *)
Record Cells := mkCells {
  showFriendsModal : bool;
  friends : list FriendSummary;
  friendRequests : list PendingRequest;
  locationLoading : bool
}.

Record Page := mkPage {
  base : World;
  cells : Cells
}.

(** Effects of the handlers of this part.  [Base] is an effect of a handler
    that only knows the [World]; the other requests leave a closure over
    the whole page.  [GetBoth] is [Promise.all] of two GETs: it resolves
    with both bodies once both requests have, and rejects with the first
    error.  [GetCurrentPosition] is the geolocation query, answered through
    its success callback with a position or through its error callback.
    [Uncaught] is an exception no [try] catches. *)
#[warnings="-register-all"]
Inductive action : Type :=
| Base (e : effect)
| PostSpot (u : string) (sp : NewSpot) (auth : option string)
           (k : outcome unit → Page → unit * Page * list action)
| PostThen (r : request)
           (k : outcome unit → Page → unit * Page * list action)
| GetBoth (r1 r2 : request)
          (k : outcome (list FriendSummary * list PendingRequest) →
               Page → unit * Page * list action)
| GetCurrentPosition (k : option LatLng → Page → unit * Page * list action)
| Uncaught (msg : string).

Definition PM (A : Type) : Type := Page → A * Page * list action.

#[global] Instance PM_ret : MRet PM := λ A a p, (a, p, []).

#[global] Instance PM_bind : MBind PM := λ A B f m p,
  let '(a, p1, e1) := m p in
  let '(b, p2, e2) := f a p1 in
  (b, p2, e1 ++ e2).

(** A handler of the [World] run on the page. *)
Definition lift {A} (m : M A) : PM A := λ p,
  let '(a, w, es) := m (base p) in
  (a, mkPage w (cells p), Base <$> es).

Definition pass : PM unit := mret tt.
Definition provided (b : bool) (m : PM unit) : PM unit := if b then m else pass.

Definition run_on {A} (m : PM A) (p : Page) : Page := (m p).1.2.
Definition actions_of {A} (m : PM A) (p : Page) : list action := (m p).2.

Definition set_cells (f : Cells → Cells) : PM unit :=
  λ p, (tt, mkPage (base p) (f (cells p)), []).

Definition setShowFriendsModal (v : bool) : PM unit :=
  set_cells (λ c, mkCells v (friends c) (friendRequests c) (locationLoading c)).
Definition setFriends (v : list FriendSummary) : PM unit :=
  set_cells (λ c, mkCells (showFriendsModal c) v (friendRequests c) (locationLoading c)).
Definition setFriendRequests (v : list PendingRequest) : PM unit :=
  set_cells (λ c, mkCells (showFriendsModal c) (friends c) v (locationLoading c)).
Definition setLocationLoading (v : bool) : PM unit :=
  set_cells (λ c, mkCells (showFriendsModal c) (friends c) (friendRequests c) v).

Definition setNewSpot (v : NewSpot) : M unit := set_state (with_newSpot v).
Definition setCurrentLocation (v : option LatLng) : M unit :=
  set_state (with_currentLocation v).

(** Requests go out with the default [Authorization] header of the
    moment. *)
Definition emit_action (a : option string → action) : PM unit :=
  λ p, (tt, p, [a (headers (base p) !! "Authorization")]).

Definition get_both (u1 u2 : string)
    (k : outcome (list FriendSummary * list PendingRequest) → PM unit) : PM unit :=
  emit_action (λ auth, GetBoth (mkRequest GET u1 NoBody auth) (mkRequest GET u2 NoBody auth) k).

Definition post_then (u : string) (k : outcome unit → PM unit) : PM unit :=
  emit_action (λ auth, PostThen (mkRequest POST u NoBody auth) k).

Definition post_spot (u : string) (sp : NewSpot) (k : outcome unit → PM unit) : PM unit :=
  emit_action (λ auth, PostSpot u sp auth k).

Definition getCurrentPosition (k : option LatLng → PM unit) : PM unit :=
  emit_action (λ _, GetCurrentPosition k).

Definition throw (msg : string) : PM unit :=
  emit_action (λ _, Uncaught msg).

(** What a list of actions shows and sends through handlers of the
    [World]. *)
Definition base_effect (a : action) : option effect :=
  match a with
  | Base e => Some e
  | _ => None
  end.

Definition dialog_of (e : effect) : option string :=
  match e with
  | Alert msg => Some msg
  | _ => None
  end.

Definition base_requests (acts : list action) : list request :=
  requests_in (omap base_effect acts).

Definition dialogs (acts : list action) : list string :=
  omap dialog_of (omap base_effect acts).

Section Component.
Context `{Env}.

Definition loadFriends (props : State) : PM unit :=
  match user props with
  | None => pass
  | Some _ =>
      get_both (API +:+ "/friends") (API +:+ "/friends/requests") (λ settled,
        match settled with
        | Resolved (friendsRes, requestsRes) =>
            setFriends friendsRes ;;
            setFriendRequests requestsRes
        | Rejected _ => pass
        end)
  end.

Definition sendFriendRequest (props : State) (userId : string) : M unit :=
  axios_post KUnit (API +:+ "/friends/request/" +:+ userId) NoBody (λ response,
    match response with
    | Resolved _ =>
        alert "Friend request sent!" ;;
        App.searchUsers (searchQuery props)
    | Rejected error => alert (or_else (detail error) "Error sending friend request")
    end).

Definition acceptFriendRequest (props : State) (requestId : string) : PM unit :=
  post_then (API +:+ "/friends/accept/" +:+ requestId) (λ response,
    match response with
    | Resolved _ =>
        lift (alert "Friend request accepted!") ;;
        loadFriends props
    | Rejected _ => lift (alert "Error accepting friend request")
    end).

Definition handleOpenFriends (props : State) : PM unit :=
  match user props with
  | None => lift (setShowAuthModal true)
  | Some _ =>
      setShowFriendsModal true ;;
      loadFriends props
  end.

Definition handleSubmitSpot (props : State) : PM unit :=
  if negb (truthy (title (newSpot props))) || negb (truthy (description (newSpot props)))
  then lift (alert "Please fill in title and description")
  else
    post_spot (API +:+ "/spots") (newSpot props) (λ response,
      match response with
      | Resolved _ =>
          lift (
            setNewSpot
              (mkNewSpot "" "" ""
                 (from_option fst default_latitude (currentLocation props))
                 (from_option snd default_longitude (currentLocation props))) ;;
            setShowAddForm false ;;
            marker ← read addSpotMarkerRef;
            map ← read mapInstanceRef;
            when (bool_decide (is_Some marker) && map)
                 (modify (with_addSpotMarkerRef None)) ;;
            alert "Spot added successfully!" ;;
            App.loadSpots props)
      | Rejected _ => lift (alert "Error creating spot. Please try again.")
      end).

(** [geolocation] tells whether [navigator.geolocation] exists.  The map
    view that the success callback moves is not part of the model. *)
Definition getCurrentLocation (geolocation : bool) : PM unit :=
  setLocationLoading true ;;
  if geolocation then
    getCurrentPosition (λ answer,
      match answer with
      | Some position =>
          lift (setCurrentLocation (Some position)) ;;
          setLocationLoading false
      | None =>
          setLocationLoading false ;;
          lift (alert "Could not get your location. Please enable location services.")
      end)
  else
    setLocationLoading false ;;
    lift (alert "Geolocation is not supported by this browser.").

(** With a marker on the map the handler also calls
    [mapInstanceRef.current.setView]; without a map instance that call
    throws before the dialog is shown. *)
Definition useMyLocation (geolocation : bool) (props : State) : PM unit :=
  match currentLocation props with
  | Some (lat, lng) =>
      lift (setNewSpot_latlng lat lng) ;;
      marker ← lift (read addSpotMarkerRef);
      map ← lift (read mapInstanceRef);
      match marker with
      | Some _ =>
          lift (modify (with_addSpotMarkerRef (Some (lat, lng)))) ;;
          if (map : bool)
          then lift (alert "Location updated to your current position!")
          else throw "TypeError"
      | None => lift (alert "Location updated to your current position!")
      end
  | None => getCurrentLocation geolocation
  end.

End Component.
End AppModals.

(* ===================================================================== *)
(** ** [App.js], second document: the first revision, without accounts *)
(* ===================================================================== *)

Module FirstApp.
Import Client.

Section Component.
Context `{Env}.

Definition loadSpots : M unit :=
  axios_get KSpots (API +:+ "/spots") (λ response,
    match response with
    | Resolved data => setSpots data
    | Rejected _ => skip
    end).

Definition handleAddSpotClick (props : State) : M unit :=
  setShowAddForm true ;;
  setSelectedSpot None ;;
  map ← read mapInstanceRef;
  marker ← read addSpotMarkerRef;
  when (map && negb (bool_decide (is_Some marker))) (
    let lat := from_option fst default_latitude (currentLocation props) in
    let lng := from_option snd default_longitude (currentLocation props) in
    modify (with_addSpotMarkerRef (Some (lat, lng))) ;;
    setNewSpot_latlng lat lng).

(** In this revision the photo is required, there is no success dialog,
    and the marker is removed without a look at the map instance: without
    one the call throws inside the [try] and the [catch] reports it. *)
Definition handleSubmitSpot (props : State) : AppModals.PM unit :=
  if negb (truthy (title (newSpot props))) ||
     negb (truthy (description (newSpot props))) ||
     negb (truthy (photo (newSpot props)))
  then AppModals.lift (alert "Please fill in all fields and upload a photo")
  else
    AppModals.post_spot (API +:+ "/spots") (newSpot props) (λ response,
      match response with
      | Resolved _ =>
          AppModals.lift (
            AppModals.setNewSpot
              (mkNewSpot "" "" ""
                 (from_option fst default_latitude (currentLocation props))
                 (from_option snd default_longitude (currentLocation props))) ;;
            setShowAddForm false ;;
            marker ← read addSpotMarkerRef;
            map ← read mapInstanceRef;
            match marker with
            | Some _ =>
                if (map : bool)
                then modify (with_addSpotMarkerRef None) ;; loadSpots
                else alert "Error creating spot. Please try again."
            | None => loadSpots
            end)
      | Rejected _ =>
          AppModals.lift (alert "Error creating spot. Please try again.")
      end).

End Component.
End FirstApp.

(* ===================================================================== *)
(** ** Invariants of the event loop of [App.js] *)
(* ===================================================================== *)

(** The three literals the filter buttons assign. *)
Definition filter_name (b : App.filter_button) : string :=
  match b with
  | App.GlobalButton => "global"
  | App.MySpotsButton => "own"
  | App.FriendsButton => "friends"
  end.

Definition known_filter (f : string) : Prop :=
  f = "global" ∨ f = "own" ∨ f = "friends".

(** The token cell mirrors [localStorage]; a default [Authorization] header,
    when there is one, is "Bearer " followed by the token cell; the filter
    cell holds one of the three literals; the map exists. *)
Definition coherent (w : Client.World) : Prop :=
  Client.token (Client.state w) = Client.localStorage w !! "token" ∧
  (∀ h, Client.headers w !! "Authorization" = Some h →
        ∃ t, Client.token (Client.state w) = Some t ∧ h = "Bearer " +:+ t) ∧
  known_filter (Client.mapFilter (Client.state w)) ∧
  Client.mapInstanceRef w = true.

(** The endpoints the event loop talks to. *)
Definition known_endpoint `{Client.Env} (r : Client.request) : Prop :=
  (Client.method r = Client.GET ∧ Client.url r = Client.API +:+ "/auth/me") ∨
  (Client.method r = Client.POST ∧ Client.url r = Client.API +:+ "/auth/login") ∨
  (Client.method r = Client.POST ∧ Client.url r = Client.API +:+ "/auth/register") ∨
  (Client.method r = Client.GET ∧
   ∃ f, known_filter f ∧ Client.url r = Client.API +:+ "/spots?filter_type=" +:+ f) ∨
  (Client.method r = Client.POST ∧
   ∃ spotId, Client.url r = Client.API +:+ "/spots/" +:+ spotId +:+ "/rate").

Definition bearer_or_none (r : Client.request) : Prop :=
  Client.authorization r = None ∨
  ∃ t, Client.authorization r = Some ("Bearer " +:+ t).

Definition well_formed_request `{Client.Env} (r : Client.request) : Prop :=
  known_endpoint r ∧ bearer_or_none r.

(** An effect sends a request that satisfies [P], and the closure it leaves
    keeps [I] and, in turn, emits only such effects. *)
#[warnings="-register-all"]
Inductive keeps (I : Client.World → Prop) (P : Client.request → Prop)
  : Client.effect → Prop :=
| keeps_http kd r k :
    P r →
    (∀ o w, I w → I (k o w).1.2 ∧ Forall (keeps I P) (k o w).2) →
    keeps I P (Client.Http kd r k)
| keeps_alert msg : keeps I P (Client.Alert msg)
| keeps_toast t msg : keeps I P (Client.Toast t msg).

(** Code run in world [w] ends in a world that satisfies [I] and emits
    only such effects; [sound] code does so from every world that
    satisfies [I]. *)
Definition sound_at {A} (I : Client.World → Prop) (P : Client.request → Prop)
    (m : Client.M A) (w : Client.World) : Prop :=
  I (m w).1.2 ∧ Forall (keeps I P) (m w).2.

Definition sound {A} (I : Client.World → Prop) (P : Client.request → Prop)
    (m : Client.M A) : Prop :=
  ∀ w, I w → sound_at I P m w.

Definition machine_sound (I : Client.World → Prop) (P : Client.request → Prop)
    (m : App.Machine) : Prop :=
  I (App.world m) ∧
  Forall P (App.sent m) ∧
  Forall (λ fl, ∀ o, sound I P (App.i_resume fl o)) (App.pending m).

(** An effect whose closure, whenever it runs, leaves the filter cell as
    it finds it and, in turn, emits only such effects.  A machine whose
    waiting closures are all of that kind. *)
#[warnings="-register-all"]
Inductive frames : Client.effect → Prop :=
| frames_http kd r k :
    (∀ o w, Client.mapFilter (Client.state (k o w).1.2) =
              Client.mapFilter (Client.state w) ∧
            Forall frames (k o w).2) →
    frames (Client.Http kd r k)
| frames_alert msg : frames (Client.Alert msg)
| frames_toast t msg : frames (Client.Toast t msg).

Definition closures_keep_filter (m : App.Machine) : Prop :=
  Forall (λ fl, ∀ o w,
            Client.mapFilter (Client.state (App.i_resume fl o w).1.2) =
              Client.mapFilter (Client.state w) ∧
            Forall frames (App.i_resume fl o w).2)
         (App.pending m).

(** The filter cell after an event, by the widget. *)
Definition filter_after (ev : App.event) (before : string) : string :=
  match ev with
  | App.ClickFilter b => filter_name b
  | App.ClickLogout => "global"
  | _ => before
  end.

(** *** More runs *)

(** The machine after a login on a fresh browser. *)
Definition after_login : App.Machine :=
  default (App.mount (H := localEnv) ∅)
    (App.run (H := localEnv)
       [ App.ClickLoginSignUp;
         App.SubmitAuthForm;
         App.Settle 2 Client.KAuth (Client.Resolved (Client.mkAuthData "tok" alice)) ]
       (App.mount (H := localEnv) ∅)).

(** The same visitor after a click on the Friends filter. *)
Definition after_friends_click : App.Machine :=
  default after_login
    (App.step (H := localEnv) (App.ClickFilter App.FriendsButton) after_login).

(* ===================================================================== *)
(** ** Properties of the friend engine *)
(* ===================================================================== *)

Section FriendFacts.
Import Core.

Lemma accept_request_Ok (s s' : Store) (rid acting a b : nat) :
  accept_request rid acting s = Ok (s', (a, b)) →
  ∃ r, requests s !! rid = Some r ∧ acting = b ∧ is_pending r = true ∧
       from_user_id r = a ∧ to_user_id r = b ∧
       s' = mkStore (alter (with_friend a) b (alter (with_friend b) a (users s)))
                    (delete rid (requests s)) (spots s) (ratings s).
Proof.
  unfold accept_request. destruct (requests s !! rid) as [r|]; [|done].
  case_bool_decide as Hact; simpl; [|done].
  destruct (is_pending r) eqn:Hp; simpl; [|done].
  intros [= <- <- <-]. by exists r.
Qed.

Lemma friends_symmetric_spec (s : Store) :
  friends_symmetric s ↔ ∀ x y, y ∈ friends_of s x → x ∈ friends_of s y.
Proof.
  unfold friends_symmetric. rewrite map_Forall_lookup. split.
  - intros Hs x y. unfold friends_of at 1.
    destruct (users s !! x) as [u|] eqn:Hx; simpl; [|set_solver].
    intros Hy. by apply (Hs x u Hx y).
  - intros Hs x u Hx y Hy. apply Hs. unfold friends_of. by rewrite Hx.
Qed.

(** The friend sets after a request from [a] to [b] was accepted. *)
Lemma friends_of_accepted (us : gmap nat User) (sp : gmap nat Spot) rq rt (a b x y : nat) :
  y ∈ friends_of (mkStore (alter (with_friend a) b (alter (with_friend b) a us)) rq sp rt) x ↔
  y ∈ friends_of (mkStore us rq sp rt) x ∨
  (x = a ∧ y = b ∧ is_Some (us !! a)) ∨
  (x = b ∧ y = a ∧ is_Some (us !! b)).
Proof.
  unfold friends_of. simpl.
  rewrite !lookup_alter.
  destruct (decide (b = x)) as [->|Hb], (decide (a = x)) as [->|Ha];
    destruct (us !! x) as [u|] eqn:Hx; simpl;
    rewrite ?elem_of_union, ?elem_of_singleton;
    intuition (subst; eauto; try congruence; try set_solver).
Qed.

Lemma one_pending_per_pair_spec (s : Store) :
  one_pending_per_pair s ↔
  ∀ i j r r', requests s !! i = Some r → requests s !! j = Some r' →
              is_pending r = true → is_pending r' = true →
              between (from_user_id r) (to_user_id r) r' = true → i = j.
Proof.
  unfold one_pending_per_pair. rewrite map_Forall_lookup. split.
  - intros Hp i j r r' Hi Hj Hr Hr' Hb.
    specialize (Hp i r Hi Hr). rewrite map_Forall_lookup in Hp.
    apply (Hp j r' Hj). by rewrite Hr', Hb.
  - intros Hp i r Hi Hr. rewrite map_Forall_lookup. intros j r' Hj Hb.
    apply andb_true_iff in Hb as [Hr' Hb]. by eapply Hp.
Qed.

Lemma friends_ok_empty : friends_ok empty_store.
Proof. split; [|split; [|split]]; apply map_Forall_empty. Qed.

Lemma between_swap (a b : nat) (st : request_status) (r : FriendRequest) :
  between (from_user_id r) (to_user_id r) (mkFriendRequest a b st) = between a b r.
Proof.
  unfold between. simpl.
  repeat case_bool_decide; simpl; try done; exfalso; destruct_and?;
    match goal with Hn : ¬ _ |- _ => solve [apply Hn; split; congruence] end.
Qed.

(** [send_request] between two registered users keeps the invariants: the
    new request is the only pending one of its pair. *)
Lemma send_request_preserves (s s' : Store) (from to rid : nat) :
  friends_ok s →
  is_Some (users s !! from) → is_Some (users s !! to) →
  send_request from to s = Ok (s', rid) →
  friends_ok s' ∧
  requests s !! rid = None ∧
  requests s' !! rid = Some (mkFriendRequest from to pending).
Proof.
  intros (Hkeys & Hsym & Hreg & Hone) Hfrom Hto. unfold send_request.
  case_bool_decide as Hself; [done|].
  case_bool_decide as Hfriends; [done|].
  destruct (pending_between s from to) eqn:Hdup; [done|].
  intros [= <- <-].
  assert (requests s !! fresh (dom (requests s)) = None) as Hfresh
    by apply not_elem_of_dom, is_fresh.
  assert (∀ j r', requests s !! j = Some r' → is_pending r' = true →
                  between from to r' = true → False) as Hnone.
  { intros j r' Hj Hp Hb. unfold pending_between in Hdup.
    apply bool_decide_eq_false in Hdup. apply Hdup.
    apply map_Exists_lookup. exists j, r'. split; [done|]. by rewrite Hp, Hb. }
  split; [|split; [done | apply lookup_insert_eq]].
  split; [done|]. split; [done|]. split.
  - apply map_Forall_insert_2; [by split | done].
  - rewrite one_pending_per_pair_spec in Hone.
    apply one_pending_per_pair_spec. simpl.
    intros i j r r'. rewrite !lookup_insert.
    destruct (decide (fresh (dom (requests s)) = i)) as [<-|Hi],
             (decide (fresh (dom (requests s)) = j)) as [<-|Hj]; try done.
    + intros [= <-] Hj' _ Hp Hb. simpl in Hb. exfalso. by eapply Hnone.
    + intros Hi' [= <-] Hp _ Hb. rewrite between_swap in Hb.
      exfalso. by eapply Hnone.
    + apply Hone.
Qed.

(** C1. From a store that meets the data-model invariants, whenever
    [accept_request] succeeds and returns the pair (a, b): the friend
    relation of the new store is symmetric for all users, a and b are in
    each other's friend sets, no request between a and b is still pending,
    the accepted request record is gone, and the invariants hold again. *)
Theorem accept_request_establishes_friendship (s s' : Store) (rid acting a b : nat) :
  friends_ok s →
  accept_request rid acting s = Ok (s', (a, b)) →
  (∀ x y, y ∈ friends_of s' x ↔ x ∈ friends_of s' y) ∧
  b ∈ friends_of s' a ∧
  a ∈ friends_of s' b ∧
  (∀ j r, requests s' !! j = Some r → between a b r = true → is_pending r = false) ∧
  requests s' !! rid = None ∧
  friends_ok s'.
Proof.
  intros (Hkeys & Hsym & Hreg & Hone) Hacc.
  apply accept_request_Ok in Hacc as (r & Hrid & -> & Hpend & Ha & Hb & ->).
  destruct s as [us rq sp rt]. simpl in *.
  pose proof (map_Forall_lookup_1 _ _ _ _ Hreg Hrid) as [Hra Hrb].
  simpl in Hra, Hrb. rewrite Ha in Hra. rewrite Hb in Hrb.
  pose proof (proj1 (friends_symmetric_spec _) Hsym) as Hsym'.
  assert (∀ x y,
    y ∈ friends_of (mkStore (alter (with_friend a) b (alter (with_friend b) a us))
                            (delete rid rq) sp rt) x →
    x ∈ friends_of (mkStore (alter (with_friend a) b (alter (with_friend b) a us))
                            (delete rid rq) sp rt) y) as Hsym2.
  { intros x y. rewrite !friends_of_accepted.
    intros [Hxy | [(-> & -> & _) | (-> & -> & _)]].
    - left. apply (Hsym' x y Hxy).
    - right; right. done.
    - right; left. done. }
  rewrite one_pending_per_pair_spec in Hone.
  assert (∀ j r', delete rid rq !! j = Some r' → between a b r' = true →
                  is_pending r' = false) as Hgone.
  { intros j r' Hj Hbt. apply lookup_delete_Some in Hj as [Hne Hj].
    destruct (is_pending r') eqn:Hp'; [|done].
    exfalso. apply Hne. eapply (Hone rid j r r'); try done.
    by rewrite Ha, Hb. }
  repeat apply conj.
  - intros x y. split; apply Hsym2.
  - apply friends_of_accepted. right; left. done.
  - apply friends_of_accepted. right; right. done.
  - exact Hgone.
  - simpl. apply lookup_delete_eq.
  - unfold keys_agree in *. simpl in *. rewrite map_Forall_lookup in *.
    intros i u Hi. rewrite !lookup_alter in Hi.
    destruct (decide (b = i)) as [->|], (decide (a = i)) as [->|];
      destruct (us !! i) as [u0|] eqn:Hu0; simplify_eq/=;
      by apply (Hkeys _ _ Hu0).
  - by apply friends_symmetric_spec.
  - unfold endpoints_registered in *. simpl in *.
    apply map_Forall_delete. eapply map_Forall_impl; [exact Hreg|].
    intros i r' [H1 H2]. simpl in *.
    by rewrite !lookup_alter_is_Some.
  - apply one_pending_per_pair_spec. simpl.
    intros i j r1 r2 Hi Hj. apply lookup_delete_Some in Hi as [_ Hi].
    apply lookup_delete_Some in Hj as [_ Hj]. by eapply Hone.
Qed.

Lemma accept_request_establishes_friendship_witness :
  accept_request 0 1 town_request = Ok (town_accepted, (3, 1)) ∧
  1 ∈ friends_of town_accepted 3 ∧
  3 ∈ friends_of town_accepted 1 ∧
  requests town_accepted !! 0 = None.
Proof.
  split; [vm_compute; reflexivity|].
  destruct (accept_request_establishes_friendship town_request town_accepted 0 1 3 1)
    as (_ & H1 & H2 & _ & H3 & _).
  - apply (bool_decide_unpack _). vm_compute. reflexivity.
  - vm_compute. reflexivity.
  - exact (conj H1 (conj H2 H3)).
Defined.

End FriendFacts.

(* ===================================================================== *)
(** ** Properties of the rating aggregator *)
(* ===================================================================== *)

Section RatingFacts.
Import Core.
Local Open Scope Z_scope.

Lemma rating_of_key (sid u : nat) (r : Rating) :
  rating_of sid u r = true ↔ rating_key r = (sid, u).
Proof.
  unfold rating_of, rating_key.
  rewrite andb_true_iff, !bool_decide_eq_true.
  split; [by intros [<- <-] | by intros [= <- <-]].
Qed.

Lemma prior_rating_None (sid u : nat) (rs : list Rating) :
  prior_rating sid u rs = None ↔ ∀ r, r ∈ rs → rating_key r ≠ (sid, u).
Proof.
  unfold prior_rating. induction rs as [|r rs IH]; simpl.
  - split; [|done]. intros _ r Hr. by apply elem_of_nil in Hr.
  - destruct (rating_of sid u r) eqn:Hr.
    + split; [done|]. intros Hall. exfalso.
      apply (Hall r); [left|]. by apply rating_of_key.
    + rewrite IH. split.
      * intros Hall r' [->|Hin]%elem_of_cons; [|by apply Hall].
        intros Hk%rating_of_key. congruence.
      * intros Hall r' Hin. apply Hall. by right.
Qed.

Lemma prior_rating_Some (sid u : nat) (rs : list Rating) (old : Rating) :
  prior_rating sid u rs = Some old → old ∈ rs ∧ rating_key old = (sid, u).
Proof.
  unfold prior_rating. intros [Hin Hk]%find_some.
  split; [by apply list_elem_of_In | by apply rating_of_key].
Qed.

(** Under uniqueness the prior rating is the one document with that key. *)
Lemma prior_rating_unique (sid u : nat) (rs : list Rating) (old : Rating) :
  NoDup (rating_key <$> rs) → old ∈ rs → rating_key old = (sid, u) →
  prior_rating sid u rs = Some old.
Proof.
  unfold prior_rating. induction rs as [|r rs IH]; simpl.
  - intros _ Hin. by apply elem_of_nil in Hin.
  - intros [Hnotin Hnd]%NoDup_cons [->|Hin]%elem_of_cons Hk.
    + by apply rating_of_key in Hk as ->.
    + destruct (rating_of sid u r) eqn:Hr; [|by apply IH].
      exfalso. apply Hnotin. apply rating_of_key in Hr. rewrite Hr, <- Hk.
      by apply list_elem_of_fmap_2.
Qed.

Lemma replace_rating_keys (sid u : nat) (v : Z) (rs : list Rating) :
  rating_key <$> replace_rating sid u v rs = rating_key <$> rs.
Proof.
  unfold replace_rating. rewrite <- list_fmap_compose. apply list_fmap_ext.
  intros _ r _. simpl. destruct (rating_of sid u r) eqn:Hr; [|done].
  by apply rating_of_key in Hr.
Qed.

Lemma replace_rating_absent (sid u : nat) (v : Z) (rs : list Rating) :
  prior_rating sid u rs = None → replace_rating sid u v rs = rs.
Proof.
  rewrite prior_rating_None. intros Hall.
  induction rs as [|r rs IH]; [done|].
  unfold replace_rating in *. rewrite fmap_cons.
  rewrite IH by (intros r' Hr'; apply Hall; by right).
  destruct (rating_of sid u r) eqn:Hr; [|done].
  exfalso. apply (Hall r); [left|]. by apply rating_of_key.
Qed.

Lemma count_for_cons (sid : nat) (r : Rating) (rs : list Rating) :
  count_for sid (r :: rs) = (if on_spot sid r then 1 else 0) + count_for sid rs.
Proof.
  unfold count_for. simpl. destruct (on_spot sid r); simpl length;
    rewrite ?Nat2Z.inj_succ; lia.
Qed.

Lemma sum_for_cons (sid : nat) (r : Rating) (rs : list Rating) :
  sum_for sid (r :: rs) = (if on_spot sid r then value r else 0) + sum_for sid rs.
Proof.
  unfold sum_for. cbn [List.filter].
  destruct (on_spot sid r); [rewrite fmap_cons; cbn [foldr]|]; lia.
Qed.

Lemma count_for_snoc (sid : nat) (rs : list Rating) (r : Rating) :
  count_for sid (rs ++ [r]) = count_for sid rs + (if on_spot sid r then 1 else 0).
Proof.
  induction rs as [|r' rs IH]; simpl.
  - rewrite count_for_cons. unfold count_for. simpl. lia.
  - rewrite !count_for_cons, IH. lia.
Qed.

Lemma sum_for_snoc (sid : nat) (rs : list Rating) (r : Rating) :
  sum_for sid (rs ++ [r]) = sum_for sid rs + (if on_spot sid r then value r else 0).
Proof.
  induction rs as [|r' rs IH]; simpl.
  - rewrite sum_for_cons. unfold sum_for. simpl. lia.
  - rewrite !sum_for_cons, IH. lia.
Qed.

Lemma count_for_nonneg (sid : nat) (rs : list Rating) : 0 ≤ count_for sid rs.
Proof. unfold count_for. lia. Qed.

Lemma count_for_pos (sid : nat) (rs : list Rating) (r : Rating) :
  r ∈ rs → r_spot_id r = sid → 0 < count_for sid rs.
Proof.
  induction rs as [|r' rs IH]; [by intros ?%elem_of_nil|].
  intros [->|Hin]%elem_of_cons Hs; rewrite count_for_cons.
  - unfold on_spot. rewrite bool_decide_eq_true_2 by done.
    pose proof (count_for_nonneg sid rs). lia.
  - specialize (IH Hin Hs). destruct (on_spot sid r'); lia.
Qed.

Lemma on_spot_replace (sid' sid u : nat) (v : Z) (r : Rating) :
  on_spot sid' (if rating_of sid u r then mkRating sid u v else r) = on_spot sid' r.
Proof.
  destruct (rating_of sid u r) eqn:Hr; [|done].
  apply rating_of_key in Hr. unfold on_spot, rating_key in *. simpl.
  by injection Hr as -> _.
Qed.

Lemma count_for_replace (sid' sid u : nat) (v : Z) (rs : list Rating) :
  count_for sid' (replace_rating sid u v rs) = count_for sid' rs.
Proof.
  induction rs as [|r rs IH]; [done|].
  unfold replace_rating in *. rewrite fmap_cons, !count_for_cons, IH.
  by rewrite on_spot_replace.
Qed.

Lemma sum_for_replace_other (sid' sid u : nat) (v : Z) (rs : list Rating) :
  sid' ≠ sid → sum_for sid' (replace_rating sid u v rs) = sum_for sid' rs.
Proof.
  intros Hne. induction rs as [|r rs IH]; [done|].
  unfold replace_rating in *. rewrite fmap_cons, !sum_for_cons, IH.
  rewrite on_spot_replace.
  destruct (rating_of sid u r) eqn:Hr; [|done].
  apply rating_of_key in Hr. unfold on_spot, rating_key in *.
  injection Hr as Hs _. rewrite bool_decide_eq_false_2; [done|]. congruence.
Qed.

Lemma sum_for_replace (sid u : nat) (v : Z) (rs : list Rating) (old : Rating) :
  NoDup (rating_key <$> rs) →
  prior_rating sid u rs = Some old →
  sum_for sid (replace_rating sid u v rs) = sum_for sid rs + (v - value old).
Proof.
  induction rs as [|r rs IH]; [done|].
  rewrite fmap_cons. intros [Hnotin Hnd]%NoDup_cons.
  unfold prior_rating. cbn [List.find]. fold (prior_rating sid u rs).
  unfold replace_rating at 1. rewrite fmap_cons. fold (replace_rating sid u v rs).
  rewrite !sum_for_cons.
  destruct (rating_of sid u r) eqn:Hr.
  - intros [= ->]. apply rating_of_key in Hr as Hk.
    assert (prior_rating sid u rs = None) as Hnone.
    { apply prior_rating_None. intros r' Hin Hk'. apply Hnotin.
      rewrite Hk, <- Hk'. by apply list_elem_of_fmap_2. }
    rewrite (replace_rating_absent _ _ _ _ Hnone).
    unfold on_spot, rating_key in *. injection Hk as Hs _. simpl.
    rewrite !bool_decide_eq_true_2 by done. lia.
  - intros Hfind. rewrite (IH Hnd Hfind). lia.
Qed.

(** A value in 1..5 is never answered with [InvalidValue]. *)
Lemma submit_rating_valid_value sid caller v s :
  1 ≤ v ≤ 5 → submit_rating sid caller v s ≠ Err InvalidValue.
Proof.
  intros Hv. unfold submit_rating.
  destruct (spots s !! sid); [|done].
  replace ((1 <=? v)%Z && (v <=? 5)%Z) with true by (symmetry; apply andb_true_intro; lia).
  simpl. destruct caller; [|done].
  by destruct (prior_rating _ _ _).
Qed.

Lemma average_rating_quotient (sp : Spot) :
  0 < rating_count sp →
  (average_rating sp == inject_Z (rating_sum sp) / inject_Z (rating_count sp))%Q.
Proof.
  intros Hpos. unfold average_rating.
  by rewrite (proj2 (Z.ltb_lt _ _) Hpos).
Qed.

Lemma ratings_ok_empty : ratings_ok empty_store.
Proof. split; [constructor | apply map_Forall_empty]. Qed.

Lemma replaced_values (sid u : nat) (v : Z) (rs : list Rating) (r : Rating) :
  r ∈ replace_rating sid u v rs → rating_key r = (sid, u) → value r = v.
Proof.
  unfold replace_rating. intros (r0 & -> & _)%list_elem_of_fmap.
  destruct (rating_of sid u r0) eqn:Hr0; [done|].
  intros Hk%rating_of_key. congruence.
Qed.

(** C2. On a store whose ratings are unique per (spot, user) and whose
    aggregates agree with the rating documents, a rating of 1..5 by user
    [u] on an existing spot succeeds.  Without a prior rating of [u] on the
    spot the sum grows by the value and the count by one; with a prior
    rating the sum changes by value minus old value and the count stays.
    Afterwards there is exactly one rating of [u] on the spot, carrying the
    new value, the invariants hold again, the count is positive and the
    returned average is the new sum divided by the new count. *)
Theorem submit_rating_aggregates (s : Store) (sid u : nat) (v : Z) (sp : Spot) :
  ratings_ok s →
  spots s !! sid = Some sp →
  1 ≤ v ≤ 5 →
  ∃ s' sp',
    submit_rating sid (Some u) v s = Ok (s', average_rating sp') ∧
    spots s' !! sid = Some sp' ∧
    ((∀ r, r ∈ ratings s → rating_key r ≠ (sid, u)) →
       rating_sum sp' = rating_sum sp + v ∧
       rating_count sp' = rating_count sp + 1) ∧
    (∀ old, old ∈ ratings s → rating_key old = (sid, u) →
       rating_sum sp' = rating_sum sp + (v - value old) ∧
       rating_count sp' = rating_count sp) ∧
    ratings_ok s' ∧
    mkRating sid u v ∈ ratings s' ∧
    (∀ r, r ∈ ratings s' → rating_key r = (sid, u) → value r = v) ∧
    0 < rating_count sp' ∧
    (average_rating sp' ==
       inject_Z (rating_sum sp') / inject_Z (rating_count sp'))%Q.
Proof.
  intros [Hnd Hagg] Hsp Hv.
  pose proof (map_Forall_lookup_1 _ _ _ _ Hagg Hsp) as [Hcount Hsum].
  simpl in Hcount, Hsum.
  unfold submit_rating. rewrite Hsp.
  replace ((1 <=? v) && (v <=? 5))%Z with true
    by (symmetry; apply andb_true_intro; lia).
  simpl.
  destruct (prior_rating sid u (ratings s)) as [old|] eqn:Hprior.
  - (* a prior rating is replaced *)
    destruct (prior_rating_Some _ _ _ _ Hprior) as [Hold Hkey].
    assert (r_spot_id old = sid) as Hspot by (by injection Hkey).
    assert (0 < rating_count sp) as Hpos
      by (rewrite Hcount; by eapply count_for_pos).
    eexists _, _. split; [reflexivity|]. simpl.
    split; [apply lookup_insert_eq|].
    split; [intros Hnone; exfalso; by apply (Hnone old)|].
    split.
    { intros old' Hin' Hkey'.
      rewrite (prior_rating_unique _ _ _ _ Hnd Hin' Hkey') in Hprior.
      by injection Hprior as ->. }
    split.
    { split.
      - unfold ratings_unique. simpl. by rewrite replace_rating_keys.
      - unfold aggregates_agree in *. simpl.
        rewrite map_Forall_lookup in Hagg. rewrite map_Forall_lookup.
        intros i spi. rewrite lookup_insert.
        destruct (decide (sid = i)) as [<-|Hne].
        + intros [= <-]. simpl.
          rewrite count_for_replace, (sum_for_replace _ _ _ _ _ Hnd Hprior). lia.
        + intros Hi. rewrite count_for_replace, sum_for_replace_other by done.
          by apply Hagg. }
    split.
    { unfold replace_rating. apply list_elem_of_fmap.
      exists old. split; [|done].
      by rewrite (proj2 (rating_of_key _ _ _) Hkey). }
    split; [apply replaced_values|].
    split; [exact Hpos|].
    apply (average_rating_quotient
             (with_aggregate (rating_sum sp + (v - value old)) (rating_count sp) sp)).
    exact Hpos.
  - (* a new rating is inserted *)
    pose proof (proj1 (prior_rating_None _ _ _) Hprior) as Hnone.
    pose proof (count_for_nonneg sid (ratings s)) as Hnn.
    eexists _, _. split; [reflexivity|]. simpl.
    split; [apply lookup_insert_eq|].
    split; [done|].
    split; [intros old Hin Hkey; exfalso; by apply (Hnone old)|].
    split.
    { split.
      - unfold ratings_unique in *. simpl. rewrite fmap_app. apply NoDup_app.
        split; [done|]. split; [|apply NoDup_singleton].
        intros k (r & -> & Hin)%list_elem_of_fmap Hk.
        apply list_elem_of_singleton in Hk. by apply (Hnone r).
      - unfold aggregates_agree in *. simpl.
        rewrite map_Forall_lookup in Hagg. rewrite map_Forall_lookup.
        intros i spi. rewrite lookup_insert, count_for_snoc, sum_for_snoc.
        unfold on_spot. simpl.
        destruct (decide (sid = i)) as [<-|Hne].
        + intros [= <-]. simpl. rewrite bool_decide_eq_true_2 by done. lia.
        + intros Hi. rewrite bool_decide_eq_false_2 by done.
          destruct (Hagg i spi Hi) as [-> ->]. lia. }
    split; [apply elem_of_app; right; by apply list_elem_of_singleton|].
    split.
    { intros r [Hin|Heq%list_elem_of_singleton]%elem_of_app Hk; [|by subst].
      exfalso. by apply (Hnone r). }
    split; [lia|].
    apply (average_rating_quotient
             (with_aggregate (rating_sum sp + v) (rating_count sp + 1) sp)).
    simpl. lia.
Qed.

(** Rating 4 and then rating 2 by the same user on a spot nobody else
    rated: the count stays at one and the average becomes 2. *)
Lemma submit_rating_aggregates_witness :
  submit_rating 10 (Some 2%nat) 4 town = Ok (town_rated, 4%Q) ∧
  ∃ s' sp',
    submit_rating 10 (Some 2%nat) 2 town_rated = Ok (s', average_rating sp') ∧
    rating_sum sp' = 2 ∧ rating_count sp' = 1 ∧ (average_rating sp' == 2)%Q.
Proof.
  split; [vm_compute; reflexivity|].
  destruct (submit_rating_aggregates town_rated 10 2 2 (mkSpot (Some 1%nat) "Pier" 4 1))
    as (s' & sp' & Hrun & _ & _ & Hold & _ & _ & _ & _ & Havg).
  - apply (bool_decide_unpack _). vm_compute. reflexivity.
  - vm_compute. reflexivity.
  - lia.
  - exists s', sp'.
    destruct (Hold (mkRating 10 2 4)) as [Hsum Hcount];
      [apply list_elem_of_singleton; reflexivity | reflexivity |].
    simpl in Hsum, Hcount.
    split; [exact Hrun|]. split; [exact Hsum|]. split; [exact Hcount|].
    rewrite Havg, Hsum, Hcount. reflexivity.
Defined.

End RatingFacts.

(* ===================================================================== *)
(** ** Properties of the visibility filter *)
(* ===================================================================== *)

Section VisibilityFacts.

Lemma elem_of_all_spots (s : Core.Store) (sp : Core.Spot) :
  sp ∈ Core.all_spots s ↔ ∃ i, Core.spots s !! i = Some sp.
Proof.
  unfold Core.all_spots. rewrite list_elem_of_fmap. split.
  - intros [[i sp'] [-> Hin]]. exists i. by apply elem_of_map_to_list in Hin.
  - intros [i Hi]. exists (i, sp). split; [done|]. by apply elem_of_map_to_list.
Qed.

Lemma elem_of_List_filter {A} (f : A → bool) (l : list A) (x : A) :
  x ∈ List.filter f l ↔ x ∈ l ∧ f x = true.
Proof. rewrite !list_elem_of_In. apply filter_In. Qed.

(** C6. The visibility filter by mode: [global] returns every spot of the
    store with or without a requesting user; [own] for user [a] returns
    exactly the spots whose owner is [a]; [friends] for [a] returns exactly
    the spots whose owner is in [a]'s friend set, none of which is [a]'s
    own since no user is their own friend.  The client footer nevertheless
    shows "Your + friends' spots" for the friends filter. *)
Theorem visibility_by_mode (s : Core.Store) (caller : option Core.User) (a : Core.User) :
  Core.uid a ∉ Core.friend_ids a →
  (∃ l, Core.visible_spots caller Core.global s = Core.Ok l ∧
        ∀ sp, sp ∈ l ↔ ∃ i, Core.spots s !! i = Some sp) ∧
  (∃ l, Core.visible_spots (Some a) Core.own s = Core.Ok l ∧
        ∀ sp, sp ∈ l ↔ sp ∈ Core.all_spots s ∧ Core.owner_id sp = Some (Core.uid a)) ∧
  (∃ l, Core.visible_spots (Some a) Core.friends s = Core.Ok l ∧
        (∀ sp, sp ∈ l ↔
           sp ∈ Core.all_spots s ∧
           ∃ o, Core.owner_id sp = Some o ∧ o ∈ Core.friend_ids a) ∧
        (∀ sp, sp ∈ l → Core.owner_id sp ≠ Some (Core.uid a))) ∧
  (∀ props u,
     Client.user props = Some u → Client.mapFilter props = "friends" →
     App.footerViewing props = Some "Viewing: Your + friends' spots").
Proof.
  intros Hself. repeat apply conj.
  - exists (Core.all_spots s). split; [by destruct caller|]. apply elem_of_all_spots.
  - eexists. split; [reflexivity|]. intros sp.
    rewrite elem_of_List_filter. unfold Core.owned_by.
    by rewrite bool_decide_eq_true.
  - eexists. split; [reflexivity|]. split.
    + intros sp. rewrite elem_of_List_filter. unfold Core.owned_by_friend.
      destruct (Core.owner_id sp) as [o|].
      * rewrite bool_decide_eq_true. split.
        -- intros [Hin Ho]. eauto.
        -- intros [Hin (o' & [= <-] & Ho)]. done.
      * split; [by intros [_ ?]|]. by intros [_ (o' & ? & _)].
    + intros sp. rewrite elem_of_List_filter. unfold Core.owned_by_friend.
      intros [_ Hf] Ho. rewrite Ho in Hf.
      by apply bool_decide_eq_true in Hf.
  - intros props u Hu Hf. unfold App.footerViewing. by rewrite Hu, Hf.
Qed.

Lemma visibility_by_mode_witness :
  Core.visible_spots (Some ann) Core.friends town =
    Core.Ok [Core.mkSpot (Some 2) "Roof" 0 0] ∧
  ∃ l, Core.visible_spots (Some ann) Core.friends town = Core.Ok l ∧
       ∀ sp, sp ∈ l → Core.owner_id sp ≠ Some (Core.uid ann).
Proof.
  split; [vm_compute; reflexivity|].
  destruct (visibility_by_mode town None ann) as (_ & _ & (l & Hl & _ & Hown) & _).
  - vm_compute. intros Hin. discriminate Hin.
  - exists l. by split.
Defined.

End VisibilityFacts.

(* ===================================================================== *)
(** ** Properties of the client handlers *)
(* ===================================================================== *)

Section ClientFacts.
Import Client.
Context `{Env}.

Lemma logged_in_intro data w :
  headers w !! "Authorization" = Some ("Bearer " +:+ access_token data) →
  localStorage w !! "token" = Some (access_token data) →
  token (state w) = Some (access_token data) →
  user (state w) = Some (auth_user data) →
  logged_in data w.
Proof. by repeat split. Qed.

(** C10. [loadSpots] of [App.js] sends one GET for the current filter and
    leaves the world as it is; when the request later fails, the spots cell
    becomes the empty list whatever it held, and when it succeeds the cell
    holds exactly the response data. *)
Theorem loadSpots_replaces_spots (props : State) (w : World) :
  ∃ k,
    App.loadSpots props w =
      (tt, w, [Http KSpots
                 (mkRequest GET (API +:+ "/spots?filter_type=" +:+ mapFilter props) NoBody
                            (headers w !! "Authorization")) k]) ∧
    (∀ (error : http_error) (w' : World),
       spots (state (exec (k (Rejected error)) w')) = []) ∧
    (∀ (data : list Spot) (w' : World),
       spots (state (exec (k (Resolved data)) w')) = data).
Proof.
  eexists. split; [reflexivity|]. split; intros; reflexivity.
Qed.

(** C3. [searchUsers] with a query shorter than two characters sends
    nothing and empties the results; with a longer query it sends
    GET /users/search?q=<query> and stores the response data as the
    results once it arrives. *)
Theorem searchUsers_minimum_length (query : string) (w : World) :
  if (String.length query <? 2)%nat then
    App.searchUsers query w = (tt, with_state (with_searchResults [] (state w)) w, [])
  else
    ∃ k,
      App.searchUsers query w =
        (tt, w, [Http KUsers
                   (mkRequest GET (API +:+ "/users/search?q=" +:+ query) NoBody
                              (headers w !! "Authorization")) k]) ∧
      (∀ (data : list UserSummary) (w' : World),
         searchResults (state (exec (k (Resolved data)) w')) = data) ∧
      (∀ (error : http_error) (w' : World), exec (k (Rejected error)) w' = w').
Proof.
  unfold App.searchUsers.
  destruct query as [|a [|b q]]; simpl; try reflexivity.
  eexists. split; [reflexivity|]. split; intros; reflexivity.
Qed.

(** C4. With no user logged in, [handleAddSpotClick] and [handleRateSpot]
    emit no effect at all, hence no HTTP request and no closure left
    waiting: they set [showAuthModal] and return.  The same holds in the
    revision with the [AuthProvider]. *)
Theorem unauthenticated_actions_open_modal
    (props : State) (w : World) (spotId : string) (rating : Z) :
  user props = None →
  App.handleAddSpotClick props w = (tt, with_state (with_showAuthModal true (state w)) w, []) ∧
  App.handleRateSpot props spotId rating w =
    (tt, with_state (with_showAuthModal true (state w)) w, []) ∧
  AuthApp.handleAddSpotClick props w =
    (tt, with_state (with_showAuthModal true (state w)) w, []) ∧
  AuthApp.handleRateSpot props spotId rating w =
    (tt, with_state (with_showAuthModal true (state w)) w, []).
Proof.
  intros Hu.
  unfold App.handleAddSpotClick, App.handleRateSpot,
    AuthApp.handleAddSpotClick, AuthApp.handleRateSpot.
  rewrite Hu. repeat split.
Qed.

(** C7. In both revisions a successful login or registration leaves the
    axios default [Authorization] header at "Bearer " followed by the
    received token, the token in [localStorage] and in the token cell, and
    the user cell at the received user.  [handleLogout] (and the provider's
    [logout]) removes the header and the stored token and clears both cells;
    the exact world after [handleLogout] is given, so nothing else but the
    map filter changes. *)
Theorem auth_header_lifecycle (props : State) (w : World) :
  (∃ k,
     App.handleLogin props w =
       (tt, with_state (with_loading true (state w)) w,
        [Http KAuth
           (mkRequest POST (API +:+ "/auth/login")
              (Credentials (f_username (authForm props)) (f_password (authForm props)))
              (headers w !! "Authorization")) k]) ∧
     ∀ (data : AuthData) (w' : World), logged_in data (exec (k (Resolved data)) w')) ∧
  (∃ k,
     App.handleRegister props w =
       (tt, with_state (with_loading true (state w)) w,
        [Http KAuth
           (mkRequest POST (API +:+ "/auth/register")
              (Registration (f_username (authForm props)) (f_email (authForm props))
                            (f_password (authForm props)))
              (headers w !! "Authorization")) k]) ∧
     ∀ (data : AuthData) (w' : World), logged_in data (exec (k (Resolved data)) w')) ∧
  (∃ k,
     AuthApp.handleSubmit props w =
       (tt, w,
        [Http KAuth
           (mkRequest POST
              (API +:+ (if String.eqb (authMode props) "login"
                        then "/auth/login" else "/auth/register"))
              (if String.eqb (authMode props) "login"
               then Credentials (f_username (authForm props)) (f_password (authForm props))
               else Registration (f_username (authForm props)) (f_email (authForm props))
                                 (f_password (authForm props)))
              (headers w !! "Authorization")) k]) ∧
     ∀ (data : AuthData) (w' : World), logged_in data (exec (k (Resolved data)) w')) ∧
  App.handleLogout w =
    (tt,
     mkWorld (with_mapFilter "global" (with_user None (with_token None (state w))))
             (mapInstanceRef w) (addSpotMarkerRef w)
             (delete "token" (localStorage w))
             (delete "Authorization" (headers w)),
     [Alert "Logged out successfully"]) ∧
  logged_out (exec App.handleLogout w) ∧
  logged_out (exec AuthApp.logout w).
Proof.
  repeat apply conj.
  - eexists. split; [reflexivity|]. intros data w'.
    apply logged_in_intro; simpl; try reflexivity; by rewrite lookup_insert_eq.
  - eexists. split; [reflexivity|]. intros data w'.
    apply logged_in_intro; simpl; try reflexivity; by rewrite lookup_insert_eq.
  - unfold AuthApp.handleSubmit.
    destruct (String.eqb (authMode props) "login");
      (eexists; split; [reflexivity|]; intros data w';
       apply logged_in_intro; simpl; try reflexivity; by rewrite lookup_insert_eq).
  - reflexivity.
  - simpl. apply lookup_delete_eq.
  - simpl. apply lookup_delete_eq.
  - reflexivity.
  - reflexivity.
  - simpl. apply lookup_delete_eq.
  - simpl. apply lookup_delete_eq.
  - reflexivity.
  - reflexivity.
Qed.

(** C9. Whenever the GET /auth/me of [fetchUserProfile] fails, whatever the
    error and whatever the client did in the meantime, the closure that was
    waiting removes the stored token, clears the token and user cells and
    deletes the default [Authorization] header; in both revisions. *)
Theorem fetchUserProfile_failure_logs_out (w : World) :
  (∃ k,
     App.fetchUserProfile w =
       (tt, w, [Http KUser (mkRequest GET (API +:+ "/auth/me") NoBody
                                      (headers w !! "Authorization")) k]) ∧
     ∀ (error : http_error) (w' : World), logged_out (exec (k (Rejected error)) w')) ∧
  (∃ k,
     AuthApp.fetchUserProfile w =
       (tt, w, [Http KUser (mkRequest GET (API +:+ "/auth/me") NoBody
                                      (headers w !! "Authorization")) k]) ∧
     ∀ (error : http_error) (w' : World), logged_out (exec (k (Rejected error)) w')).
Proof.
  split; (eexists; split; [reflexivity|]; intros error w';
          repeat split; simpl; apply lookup_delete_eq).
Qed.

End ClientFacts.

Lemma unauthenticated_actions_open_modal_witness :
  Client.user (App.initialState ∅) = None ∧
  App.handleRateSpot (H := localEnv) (App.initialState ∅) "s-bench" 5 (App.initialWorld ∅) =
    (tt,
     Client.with_state (Client.with_showAuthModal true (App.initialState ∅))
                       (App.initialWorld ∅),
     []).
Proof.
  split; [reflexivity|].
  apply (unauthenticated_actions_open_modal (H := localEnv)
           (App.initialState ∅) (App.initialWorld ∅) "s-bench" 5).
  reflexivity.
Defined.

(* ===================================================================== *)
(** ** What the client can send *)
(* ===================================================================== *)

Section Obeys.
Import Client.
Context `{Env} (P : request → Prop).

Lemma obeys_ret {A} (a : A) : obeys P (mret a).
Proof. intros w. constructor. Qed.

Lemma obeys_bind {A B} (m : M A) (f : A → M B) :
  obeys P m → (∀ a, obeys P (f a)) → obeys P (m ≫= f).
Proof.
  intros Hm Hf w. unfold mbind, M_bind.
  specialize (Hm w). destruct (m w) as [[a w1] e1].
  specialize (Hf a w1). destruct (f a w1) as [[b w2] e2].
  simpl in *. by apply Forall_app.
Qed.

Lemma obeys_modify (f : World → World) : obeys P (modify f).
Proof. intros w. constructor. Qed.

Lemma obeys_read {A} (f : World → A) : obeys P (read f).
Proof. intros w. constructor. Qed.

Lemma obeys_alert (msg : string) : obeys P (alert msg).
Proof. intros w. repeat constructor. Qed.

Lemma obeys_toast (t : toast_kind) (msg : string) : obeys P (toast t msg).
Proof. intros w. repeat constructor. Qed.

Lemma obeys_when (b : bool) (m : M unit) : obeys P m → obeys P (when b m).
Proof. destruct b; [done|]. intros _. apply obeys_ret. Qed.

Lemma obeys_send kd mt u b (k : outcome (payload kd) → M unit) :
  (∀ auth, P (mkRequest mt u b auth)) →
  (∀ o, obeys P (k o)) →
  obeys P (send kd mt u b k).
Proof.
  intros Hr Hk w. simpl. constructor; [|constructor].
  constructor; [apply Hr|]. intros o w'. apply Hk.
Qed.

(** What was emitted splits into the requests that left and the closures
    now waiting. *)
Lemma sends_only_split (es : list effect) :
  Forall (sends_only P) es →
  Forall P (requests_in es) ∧
  Forall (λ fl, ∀ o, obeys P (App.i_resume fl o)) (omap App.inflight_of es).
Proof.
  induction 1 as [|e es He _ [IH1 IH2]]; [by split|].
  destruct He; simpl; split; try done.
  - by constructor.
  - constructor; [|done]. intros o w. simpl. auto.
Qed.

Lemma resume_obeys (fl : App.inflight) kd (o : outcome (payload kd)) (code : M unit) :
  (∀ o', obeys P (App.i_resume fl o')) →
  App.resume fl kd o = Some code →
  obeys P code.
Proof.
  intros Hfl. unfold App.resume.
  destruct (decide (kd = App.i_kind fl)) as [e|]; [|done].
  intros [= <-]. apply Hfl.
Qed.

End Obeys.

Ltac obey :=
  repeat first
    [ apply obeys_ret
    | apply obeys_modify
    | apply obeys_read
    | apply obeys_alert
    | apply obeys_toast
    | apply obeys_when
    | apply obeys_bind; [|intros ?]
    | apply obeys_send; [intros ?|intros [?|?]] ].

Section RatingRange.
Import Client.
Context `{Env}.

Lemma loadSpots_obeys (props : State) : obeys rating_in_range (App.loadSpots props).
Proof. unfold App.loadSpots, axios_get. obey; done. Qed.

Lemma fetchUserProfile_obeys : obeys rating_in_range App.fetchUserProfile.
Proof. unfold App.fetchUserProfile, axios_get. obey; done. Qed.

Lemma handleRateSpot_obeys (props : State) (spotId : string) (rating : Z) :
  (1 ≤ rating ≤ 5)%Z →
  obeys rating_in_range (App.handleRateSpot props spotId rating).
Proof.
  intros Hr. unfold App.handleRateSpot, axios_post.
  destruct (user props); obey; done.
Qed.

Lemma starValues_in_range : Forall (λ star, (1 ≤ star ≤ 5)%Z) App.starValues.
Proof. repeat constructor; lia. Qed.

Lemma on_obeys (ev : App.event) (props : State) (code : M unit) :
  App.on ev props = Some code → obeys rating_in_range code.
Proof.
  destruct ev; simpl.
  - destruct (user props); intros [= <-]. obey.
  - unfold App.filterButtons. destruct (user props), b; intros [= <-]; obey.
  - destruct (user props); intros [= <-].
    unfold App.handleAddSpotClick. destruct (user props); obey.
  - destruct (user props); intros [= <-]. unfold App.handleLogout. obey.
  - destruct (showAddForm props); intros [= <-]. unfold App.handleCancelAdd. obey.
  - destruct (showAuthModal props); intros [= <-]. obey.
  - destruct (showAuthModal props); [|done]. unfold App.typeAuthField.
    destruct f; [| destruct (String.eqb _ _) |]; intros [= <-]; obey.
  - destruct (showAuthModal props); intros [= <-]. obey.
  - destruct (showAuthModal props && negb (loading props)); intros [= <-].
    destruct (String.eqb _ _); unfold App.handleLogin, App.handleRegister, axios_post;
      obey; done.
  - destruct (spots props !! i); intros [= <-]. obey.
  - destruct (selectedSpot props); intros [= <-]. obey.
  - unfold App.starButtons.
    destruct (selectedSpot props) as [spot|]; [|done].
    destruct (user props); [|done].
    rewrite list_lookup_fmap.
    destruct (App.starValues !! i) as [star|] eqn:Hi; intros [= <-].
    apply handleRateSpot_obeys.
    eapply (Forall_lookup_1 _ _ _ _ starValues_in_range Hi).
  - done.
Qed.

Lemma updateEffects_obeys (before after : State) :
  obeys rating_in_range (App.updateEffects before after).
Proof.
  unfold App.updateEffects, App.tokenEffect, App.filterEffect.
  apply obeys_bind; [|intros ?].
  - destruct (bool_decide _); [obey|].
    destruct (token after) as [t|]; [|obey].
    destruct (truthy t); obey; done.
  - destruct (_ && _); obey; done.
Qed.

Lemma commit_obeys (m : App.Machine) (code : M unit) :
  machine_obeys rating_in_range m →
  obeys rating_in_range code →
  machine_obeys rating_in_range (App.commit m code).
Proof.
  intros [Hsent Hpending] Hcode. unfold App.commit.
  specialize (Hcode (App.world m)).
  destruct (code (App.world m)) as [[[] w1] e1].
  pose proof (updateEffects_obeys (state (App.world m)) (state w1) w1) as He2.
  destruct (App.updateEffects _ _ w1) as [[[] w2] e2].
  simpl in *.
  destruct (sends_only_split rating_in_range (e1 ++ e2)) as [H1 H2];
    [by apply Forall_app|].
  split; simpl; by apply Forall_app.
Qed.

Lemma step_obeys (ev : App.event) (m m' : App.Machine) :
  machine_obeys rating_in_range m →
  App.step ev m = Some m' →
  machine_obeys rating_in_range m'.
Proof.
  intros Hm Hstep.
  assert (∀ code, App.on ev (state (App.world m)) = Some code →
                  App.commit m code = m' → machine_obeys rating_in_range m') as Hui.
  { intros code Hon <-. apply commit_obeys; [done|]. by eapply on_obeys. }
  unfold App.step in Hstep.
  destruct ev as [| b | | | | | f v | | | i | | i | n kd o]; cbv beta iota in Hstep;
    try (destruct (App.on _ _) as [code|] eqn:Hon; [|done];
         simpl in Hstep; injection Hstep as Hstep; by eapply Hui).
  destruct (App.pending m !! n) as [fl|] eqn:Hn; [|done]. simpl in Hstep.
  destruct (App.resume fl kd o) as [code|] eqn:Hres; [|done]. simpl in Hstep.
  injection Hstep as <-.
  destruct Hm as [Hsent Hpending].
  apply commit_obeys.
  - split; [done|]. simpl. by apply Forall_delete.
  - eapply resume_obeys; [|done].
    apply (Forall_lookup_1 _ _ _ _ Hpending Hn).
Qed.

Lemma mount_obeys (ls : gmap string string) :
  machine_obeys rating_in_range (App.mount ls).
Proof.
  unfold App.mount.
  assert (obeys rating_in_range (App.mountEffects (App.initialState ls))) as Hm.
  { unfold App.mountEffects, App.tokenEffect, App.mapEffect, App.filterEffect.
    apply obeys_bind; [|intros ?].
    - destruct (token _) as [t|]; [|obey].
      destruct (truthy t); obey; done.
    - obey; done. }
  specialize (Hm (App.initialWorld ls)).
  destruct (App.mountEffects _ _) as [[[] w] es]. simpl in Hm.
  by apply sends_only_split.
Qed.

Lemma run_obeys (evs : list App.event) (m m' : App.Machine) :
  machine_obeys rating_in_range m →
  App.run evs m = Some m' →
  machine_obeys rating_in_range m'.
Proof.
  revert m. induction evs as [|ev evs IH]; intros m Hm; simpl.
  - by intros [= <-].
  - destruct (App.step ev m) as [m1|] eqn:Hstep; [|done]. simpl.
    apply IH. by eapply step_obeys.
Qed.

End RatingRange.

Section ClientRuns.
Import Client.
Context `{Env}.

(** C5. Along every run of the client from page load, each request that
    carries a rating carries one of 1..5, so [submit_rating] never answers
    it with [InvalidValue].  The star buttons of [App.js] post exactly the
    values 1, 2, 3, 4, 5, each unchanged, and the [StarRating] component of
    the other revision hands [index + 1] for the five indices to [onRate],
    which posts it unchanged. *)
Theorem star_ratings_in_range
    (ls : gmap string string) (evs : list App.event) (m : App.Machine) :
  App.run evs (App.mount ls) = Some m →
  Forall rating_in_range (App.sent m) ∧
  Forall (λ r, ∀ v, payload_body r = RatingBody v →
               ∀ sid caller s,
                 Core.submit_rating sid caller v s ≠ Core.Err Core.InvalidValue)
         (App.sent m) ∧
  (∀ props w,
     (λ h : M unit, requests_in (effects_of h w)) <$> App.starButtons props =
     match selectedSpot props, user props with
     | Some spot, Some _ =>
         (λ star, [mkRequest POST (API +:+ "/spots/" +:+ s_id spot +:+ "/rate")
                             (RatingBody star) (headers w !! "Authorization")])
           <$> [1; 2; 3; 4; 5]%Z
     | _, _ => []
     end) ∧
  (∀ onRate : Z → M unit,
     AuthApp.StarRating (Some onRate) false = onRate <$> [1; 2; 3; 4; 5]%Z ∧
     AuthApp.StarRating (Some onRate) true = replicate 5 skip) ∧
  (∀ props spot u w,
     loading props = false → selectedSpot props = Some spot →
     showAddForm props = false → user props = Some u →
     (λ h : M unit, requests_in (effects_of h w)) <$> AuthApp.starButtons props =
     (λ star, [mkRequest POST (API +:+ "/spots/" +:+ s_id spot +:+ "/rate")
                         (RatingBody star) (headers w !! "Authorization")])
       <$> [1; 2; 3; 4; 5]%Z).
Proof.
  intros Hrun.
  assert (Forall rating_in_range (App.sent m)) as Hsent.
  { eapply run_obeys in Hrun; [apply Hrun | apply mount_obeys]. }
  repeat apply conj.
  - done.
  - eapply Forall_impl; [exact Hsent|].
    intros r Hr v Hv sid caller s. apply submit_rating_valid_value.
    unfold rating_in_range in Hr. by rewrite Hv in Hr.
  - intros props w. unfold App.starButtons.
    destruct (selectedSpot props) as [spot|]; [|done].
    destruct (user props) as [u|] eqn:Hu; [|done].
    unfold App.starValues, App.handleRateSpot. simpl. by rewrite Hu.
  - intros onRate. split; reflexivity.
  - intros props spot u w Hl Hs Ha Hu. unfold AuthApp.starButtons.
    rewrite Hl, Hs, Ha, Hu. unfold AuthApp.handleRateSpot. simpl. by rewrite Hu.
Qed.

(** C8. [App.js] does not maintain "no user implies the global filter".
    [handleLogout] resets the filter to "global", but the closure of
    [fetchUserProfile] that runs when GET /auth/me fails logs the user out
    and keeps the filter.  On [stale_profile_run] the client ends with no
    user, the filter at "friends", and its last request is
    GET /spots?filter_type=friends without an [Authorization] header. *)
Theorem failed_profile_keeps_filter :
  (∀ w, mapFilter (state (exec App.handleLogout w)) = "global") ∧
  (∀ w, ∃ k,
     App.fetchUserProfile w =
       (tt, w, [Http KUser (mkRequest GET (API +:+ "/auth/me") NoBody
                                      (headers w !! "Authorization")) k]) ∧
     ∀ (error : http_error) (w' : World),
       user (state (exec (k (Rejected error)) w')) = None ∧
       mapFilter (state (exec (k (Rejected error)) w')) = mapFilter (state w')) ∧
  ∃ m,
    App.run stale_profile_run (App.mount ∅) = Some m ∧
    user (state (App.world m)) = None ∧
    mapFilter (state (App.world m)) = "friends" ∧
    last (App.sent m) =
      Some (mkRequest GET (API +:+ "/spots?filter_type=friends") NoBody None).
Proof.
  split; [reflexivity|]. split.
  - intros w. eexists. split; [reflexivity|]. by intros error w'.
  - eexists. split; [vm_compute; reflexivity|]. by vm_compute.
Qed.

End ClientRuns.

Lemma star_ratings_in_range_witness :
  ∃ m, App.run (H := localEnv) rating_run (App.mount (H := localEnv) ∅) = Some m ∧
       last (App.sent m) =
         Some (Client.mkRequest Client.POST "http://localhost:8001/api/spots/s-bench/rate"
                                (Client.RatingBody 4) (Some "Bearer tok")) ∧
       Forall rating_in_range (App.sent m).
Proof.
  eexists. split; [vm_compute; reflexivity|]. split; [vm_compute; reflexivity|].
  eapply (star_ratings_in_range (H := localEnv) ∅ rating_run).
  vm_compute. reflexivity.
Defined.

(* ===================================================================== *)
(** ** Invariants along every run of [App.js] *)
(* ===================================================================== *)

(** Unfold the monad and its primitives down to explicit worlds and effect
    lists. *)
Ltac run_code :=
  cbv [mbind mret Client.M_bind Client.M_ret Client.modify Client.read Client.emit
       Client.skip Client.when Client.set_state Client.setUser Client.setToken
       Client.setSpots Client.setShowAddForm Client.setSelectedSpot
       Client.setShowAuthModal Client.setAuthMode Client.setSearchResults
       Client.setSearchQuery Client.setMapFilter Client.setAuthForm Client.setLoading
       Client.setNewSpot_latlng Client.localStorage_setItem
       Client.localStorage_removeItem Client.set_default_header
       Client.delete_default_header Client.send Client.axios_get Client.axios_post
       Client.alert Client.toast Client.exec Client.effects_of];
  simpl.

Section Sound.
Import Client.
Context `{Env}.

Local Arguments String.append : simpl never.

Lemma header_of_coherent (w : World) :
  coherent w →
  headers w !! "Authorization" = None ∨
  ∃ t, headers w !! "Authorization" = Some ("Bearer " +:+ t).
Proof.
  intros (_ & Hh & _). destruct (headers w !! "Authorization") as [h|]; [|by left].
  destruct (Hh h eq_refl) as (t & _ & ->). right. by exists t.
Qed.

Lemma well_formed_get_spots (props : State) (w : World) :
  known_filter (mapFilter props) → coherent w →
  well_formed_request
    (mkRequest GET (API +:+ "/spots?filter_type=" +:+ mapFilter props) NoBody
               (headers w !! "Authorization")).
Proof.
  intros Hf Hw. split; [|by apply header_of_coherent].
  right; right; right; left. split; [done|]. by exists (mapFilter props).
Qed.

(** A state update that leaves the token and filter cells alone. *)
Lemma coherent_set_state (f : State → State) (w : World) :
  token (f (state w)) = token (state w) →
  mapFilter (f (state w)) = mapFilter (state w) →
  coherent w → coherent (with_state (f (state w)) w).
Proof.
  intros Ht Hf (H1 & H2 & H3 & H4). unfold coherent. simpl.
  rewrite Ht, Hf. done.
Qed.

(** Coherence looks at five places of the world only. *)
Lemma coherent_same (w w' : World) :
  token (state w') = token (state w) →
  localStorage w' = localStorage w →
  headers w' = headers w →
  mapFilter (state w') = mapFilter (state w) →
  mapInstanceRef w' = mapInstanceRef w →
  coherent w → coherent w'.
Proof.
  intros Ht Hl Hh Hf Hm (H1 & H2 & H3 & H4). unfold coherent.
  rewrite Ht, Hl, Hh, Hf, Hm. done.
Qed.

Lemma coherent_marker (v : option LatLng) (w : World) :
  coherent w → coherent (with_addSpotMarkerRef v w).
Proof. by intros (H1 & H2 & H3 & H4). Qed.

Lemma coherent_filter (v : string) (w : World) :
  known_filter v → coherent w → coherent (with_state (with_mapFilter v (state w)) w).
Proof. by intros Hv (H1 & H2 & H3 & H4). Qed.

Lemma coherent_logged_out (f : string) (w : World) :
  known_filter f → mapInstanceRef w = true →
  coherent
    (mkWorld (with_mapFilter f (with_user None (with_token None (state w))))
             (mapInstanceRef w) (addSpotMarkerRef w)
             (delete "token" (localStorage w))
             (delete "Authorization" (headers w))).
Proof.
  intros Hf Hm. unfold coherent. simpl. rewrite !lookup_delete_eq.
  split; [done|]. split; [|done]. by intros h [=].
Qed.

Lemma coherent_logged_in (tok : string) (f : State → State) (w : World) :
  token (f (state w)) = Some tok →
  known_filter (mapFilter (f (state w))) → mapInstanceRef w = true →
  coherent
    (mkWorld (f (state w)) (mapInstanceRef w) (addSpotMarkerRef w)
             (<["token" := tok]> (localStorage w))
             (<["Authorization" := "Bearer " +:+ tok]> (headers w))).
Proof.
  intros Ht Hf Hm. unfold coherent. simpl. rewrite !lookup_insert_eq.
  split; [done|]. split; [|done]. intros h [= <-]. by exists tok.
Qed.

Lemma loadSpots_sound (props : State) :
  known_filter (mapFilter props) →
  sound coherent well_formed_request (App.loadSpots props).
Proof.
  intros Hf w Hw. split; [done|]. constructor; [|constructor].
  constructor; [by apply well_formed_get_spots|].
  intros [data|error] w' Hw'; (split; [|constructor]);
    by apply (coherent_set_state (with_spots _)).
Qed.

Lemma profile_closure_sound (o : outcome UserData) (w : World) :
  coherent w →
  let k := λ response : outcome UserData,
    match response with
    | Resolved data => setUser (Some data)
    | Rejected _ =>
        localStorage_removeItem "token" ;; setToken None ;; setUser None ;;
        delete_default_header "Authorization"
    end in
  coherent (k o w).1.2 ∧ Forall (keeps coherent well_formed_request) (k o w).2.
Proof.
  intros Hw. destruct o as [data|error]; simpl; (split; [|constructor]).
  - by apply (coherent_set_state (with_user _)).
  - destruct Hw as (_ & _ & Hf & Hm).
    apply (coherent_logged_out _ w) in Hf; [|done].
    destruct Hf as (F1 & F2 & F3 & F4). by repeat split.
Qed.

Lemma fetchUserProfile_sound :
  sound coherent well_formed_request App.fetchUserProfile.
Proof.
  intros w Hw. split; [done|]. constructor; [|constructor].
  constructor.
  - split; [by left | by apply header_of_coherent].
  - intros o w' Hw'. by apply profile_closure_sound.
Qed.

Lemma sound_at_bind {A B} (m : M A) (f : A → M B) (w : World) :
  sound_at coherent well_formed_request m w →
  sound_at coherent well_formed_request (f (m w).1.1) (m w).1.2 →
  sound_at coherent well_formed_request (m ≫= f) w.
Proof.
  unfold sound_at, mbind, M_bind.
  destruct (m w) as [[a w1] e1]. simpl.
  destruct (f a w1) as [[b w2] e2]. simpl.
  intros [_ He1] [Hw2 He2]. split; [done|]. by apply Forall_app.
Qed.

Lemma sound_at_skip (w : World) :
  coherent w → sound_at coherent well_formed_request skip w.
Proof. intros Hw. split; [done|constructor]. Qed.

Lemma handleLogin_sound (props : State) :
  sound coherent well_formed_request (App.handleLogin props).
Proof.
  intros w Hw. split; [by apply (coherent_set_state (with_loading true))|].
  constructor; [|constructor]. constructor.
  - split; [right; left; done | by apply header_of_coherent].
  - intros [data|error] w' Hw'; simpl; (split; [|repeat constructor]).
    + destruct Hw' as (_ & _ & Hf & Hm).
      by apply (coherent_logged_in (access_token data)
                  (λ s, with_loading false (with_authForm emptyAuthForm
                          (with_showAuthModal false (with_user (Some (auth_user data))
                             (with_token (Some (access_token data)) s))))) w').
    + by apply (coherent_set_state (with_loading false)).
Qed.

Lemma handleRegister_sound (props : State) :
  sound coherent well_formed_request (App.handleRegister props).
Proof.
  intros w Hw. split; [by apply (coherent_set_state (with_loading true))|].
  constructor; [|constructor]. constructor.
  - split; [right; right; left; done | by apply header_of_coherent].
  - intros [data|error] w' Hw'; simpl; (split; [|repeat constructor]).
    + destruct Hw' as (_ & _ & Hf & Hm).
      by apply (coherent_logged_in (access_token data)
                  (λ s, with_loading false (with_authForm emptyAuthForm
                          (with_showAuthModal false (with_user (Some (auth_user data))
                             (with_token (Some (access_token data)) s))))) w').
    + by apply (coherent_set_state (with_loading false)).
Qed.

Lemma handleRateSpot_sound (props : State) (spotId : string) (rating : Z) :
  known_filter (mapFilter props) →
  sound coherent well_formed_request (App.handleRateSpot props spotId rating).
Proof.
  intros Hf w Hw. unfold App.handleRateSpot.
  destruct (user props).
  - split; [done|]. constructor; [|constructor]. constructor.
    + split; [|by apply header_of_coherent].
      do 4 right. split; [done|]. by exists spotId.
    + intros [[]|error] w' Hw'; [|by split; [|repeat constructor]].
      apply (sound_at_bind (alert _)); [by split; [|repeat constructor]|].
      apply (sound_at_bind (App.loadSpots props)); [by apply loadSpots_sound|].
      split; [|constructor]. by apply (coherent_set_state (with_selectedSpot None)).
  - split; [|constructor]. by apply (coherent_set_state (with_showAuthModal true)).
Qed.

Lemma handleAddSpotClick_sound (props : State) :
  sound coherent well_formed_request (App.handleAddSpotClick props).
Proof.
  intros w Hw. unfold App.handleAddSpotClick, sound_at.
  destruct (user props); run_code.
  - destruct (mapInstanceRef w && negb (bool_decide (is_Some (addSpotMarkerRef w))));
      run_code; (split; [|constructor]).
    + by apply (coherent_same w).
    + by apply (coherent_same w).
  - split; [|constructor]. by apply (coherent_set_state (with_showAuthModal true)).
Qed.

Lemma known_filter_name (b : App.filter_button) : known_filter (filter_name b).
Proof. destruct b; unfold known_filter; simpl; auto. Qed.

Lemma on_sound (ev : App.event) (w : World) (code : M unit) :
  coherent w →
  App.on ev (state w) = Some code →
  sound coherent well_formed_request code.
Proof.
  intros Hw. pose proof Hw as (_ & _ & Hfilter & _).
  destruct ev as [| b | | | | | f v | | | i | | i | n kd o]; simpl.
  - destruct (user (state w)); intros [= <-] w' Hw'.
    split; [|constructor]. by apply (coherent_set_state (with_showAuthModal true)).
  - unfold App.filterButtons. destruct (user (state w)); [|done].
    destruct b; intros [= <-] w' Hw'; (split; [|constructor]);
      apply coherent_filter; unfold known_filter; auto.
  - destruct (user (state w)); intros [= <-]. apply handleAddSpotClick_sound.
  - destruct (user (state w)); intros [= <-] w' Hw'. split; [|repeat constructor].
    destruct Hw' as (_ & _ & _ & Hm).
    apply (coherent_logged_out "global" w'); [|done]. unfold known_filter; auto.
  - destruct (showAddForm (state w)); intros [= <-] w' Hw'.
    unfold App.handleCancelAdd, sound_at. run_code.
    destruct (bool_decide (is_Some (addSpotMarkerRef w')) && mapInstanceRef w');
      run_code; (split; [|constructor]).
    + by apply (coherent_same w').
    + by apply (coherent_same w').
  - destruct (showAuthModal (state w)); intros [= <-] w' Hw'.
    split; [|constructor]. by apply (coherent_set_state (with_showAuthModal false)).
  - destruct (showAuthModal (state w)); [|done]. unfold App.typeAuthField.
    destruct f; [| destruct (String.eqb _ _) |]; intros [= <-] w' Hw';
      (split; [|constructor]); by apply (coherent_set_state (with_authForm _)).
  - destruct (showAuthModal (state w)); intros [= <-] w' Hw'.
    split; [|constructor]. by apply (coherent_set_state (with_authMode _)).
  - destruct (showAuthModal (state w) && negb (loading (state w))); intros [= <-].
    destruct (String.eqb _ _); [apply handleLogin_sound | apply handleRegister_sound].
  - destruct (spots (state w) !! i); intros [= <-] w' Hw'.
    split; [|constructor]. by apply (coherent_set_state (with_selectedSpot _)).
  - destruct (selectedSpot (state w)); intros [= <-] w' Hw'.
    split; [|constructor]. by apply (coherent_set_state (with_selectedSpot None)).
  - unfold App.starButtons.
    destruct (selectedSpot (state w)) as [spot|]; [|done].
    destruct (user (state w)); [|done].
    rewrite list_lookup_fmap.
    destruct (App.starValues !! i) as [star|]; intros [= <-].
    by apply handleRateSpot_sound.
  - done.
Qed.

Lemma coherent_header (t : string) (w : World) :
  coherent w → token (state w) = Some t →
  coherent (with_headers (<["Authorization" := "Bearer " +:+ t]> (headers w)) w).
Proof.
  intros (H1 & H2 & H3 & H4) Ht. unfold coherent. simpl.
  rewrite lookup_insert_eq. split; [done|]. split; [|done].
  intros h [= <-]. by exists t.
Qed.

Lemma tokenEffect_sound (w : World) :
  coherent w →
  sound_at coherent well_formed_request (App.tokenEffect (state w)) w.
Proof.
  intros Hw. unfold App.tokenEffect.
  destruct (token (state w)) as [t|] eqn:Ht; [|by apply sound_at_skip].
  destruct (truthy t); [|by apply sound_at_skip].
  apply (sound_at_bind (set_default_header _ _)).
  - split; [|constructor]. by apply coherent_header.
  - apply fetchUserProfile_sound. by apply coherent_header.
Qed.

Lemma filterEffect_sound (w : World) :
  coherent w →
  sound_at coherent well_formed_request (App.filterEffect (state w)) w.
Proof.
  intros Hw. pose proof Hw as (_ & _ & Hf & Hm).
  unfold App.filterEffect, sound_at. run_code. rewrite Hm. run_code.
  split; [done|]. exact (proj2 (loadSpots_sound (state w) Hf w Hw)).
Qed.

Lemma updateEffects_sound (before : State) (w : World) :
  coherent w →
  sound_at coherent well_formed_request (App.updateEffects before (state w)) w.
Proof.
  intros Hw. unfold App.updateEffects.
  apply sound_at_bind.
  - destruct (bool_decide _); [by apply sound_at_skip | by apply tokenEffect_sound].
  - assert (sound_at coherent well_formed_request
              (if bool_decide (token before = token (state w))
               then skip else App.tokenEffect (state w)) w) as [Hw1 _].
    { destruct (bool_decide _); [by apply sound_at_skip | by apply tokenEffect_sound]. }
    set (w1 := ((if bool_decide (token before = token (state w))
                 then skip else App.tokenEffect (state w)) w).1.2) in *.
    assert (state w1 = state w) as Hst.
    { unfold w1, App.tokenEffect.
      destruct (bool_decide _); [done|].
      destruct (token (state w)) as [t|]; [|done]. by destruct (truthy t). }
    destruct (_ && _); [by apply sound_at_skip|].
    rewrite <- Hst. by apply filterEffect_sound.
Qed.

Lemma keeps_split (es : list effect) :
  Forall (keeps coherent well_formed_request) es →
  Forall well_formed_request (requests_in es) ∧
  Forall (λ fl, ∀ o, sound coherent well_formed_request (App.i_resume fl o))
         (omap App.inflight_of es).
Proof.
  induction 1 as [|e es He _ [IH1 IH2]]; [by split|].
  destruct He as [kd r k Hr Hk| |]; simpl; split; try done.
  - by constructor.
  - constructor; [|done]. intros o w Hw. simpl. by apply Hk.
Qed.

Lemma commit_sound (m : App.Machine) (code : M unit) :
  machine_sound coherent well_formed_request m →
  sound coherent well_formed_request code →
  machine_sound coherent well_formed_request (App.commit m code).
Proof.
  intros (Hw & Hsent & Hpending) Hcode. unfold App.commit.
  destruct (Hcode (App.world m) Hw) as [Hw1 He1].
  destruct (code (App.world m)) as [[[] w1] e1]. simpl in Hw1, He1.
  destruct (updateEffects_sound (state (App.world m)) w1 Hw1) as [Hw2 He2].
  destruct (App.updateEffects _ _ w1) as [[[] w2] e2]. simpl in Hw2, He2.
  destruct (keeps_split (e1 ++ e2)) as [H1 H2]; [by apply Forall_app|].
  split; [done|]. split; simpl; by apply Forall_app.
Qed.

Lemma step_sound (ev : App.event) (m m' : App.Machine) :
  machine_sound coherent well_formed_request m →
  App.step ev m = Some m' →
  machine_sound coherent well_formed_request m'.
Proof.
  intros Hm Hstep.
  assert (∀ code, App.on ev (state (App.world m)) = Some code →
                  App.commit m code = m' →
                  machine_sound coherent well_formed_request m') as Hui.
  { intros code Hon <-. apply commit_sound; [done|].
    destruct Hm as [Hw _]. by eapply on_sound. }
  unfold App.step in Hstep.
  destruct ev as [| b | | | | | f v | | | i | | i | n kd o]; cbv beta iota in Hstep;
    try (destruct (App.on _ _) as [code|] eqn:Hon; [|done];
         simpl in Hstep; injection Hstep as Hstep; by eapply Hui).
  destruct (App.pending m !! n) as [fl|] eqn:Hn; [|done]. simpl in Hstep.
  destruct (App.resume fl kd o) as [code|] eqn:Hres; [|done]. simpl in Hstep.
  injection Hstep as <-.
  destruct Hm as (Hw & Hsent & Hpending).
  apply commit_sound.
  - split; [done|]. split; [done|]. simpl. by apply Forall_delete.
  - unfold App.resume in Hres.
    destruct (decide (kd = App.i_kind fl)) as [e|]; [|done].
    injection Hres as <-. apply (Forall_lookup_1 _ _ _ _ Hpending Hn).
Qed.

Lemma effects_bind {A B} (m : M A) (f : A → M B) (w : World) :
  Forall (keeps coherent well_formed_request) (m w).2 →
  sound_at coherent well_formed_request (f (m w).1.1) (m w).1.2 →
  sound_at coherent well_formed_request (m ≫= f) w.
Proof.
  unfold sound_at, mbind, M_bind.
  destruct (m w) as [[a w1] e1]. simpl.
  destruct (f a w1) as [[b w2] e2]. simpl.
  intros He1 [Hw2 He2]. split; [done|]. by apply Forall_app.
Qed.

(** On mount the map does not exist yet, so coherence is reached only
    after the second hook. *)
Lemma mountEffects_sound (ls : gmap string string) :
  sound_at coherent well_formed_request
    (App.mountEffects (App.initialState ls)) (App.initialWorld ls).
Proof.
  assert (∀ hs, (∀ h, hs !! "Authorization" = Some h →
                      ∃ t, ls !! "token" = Some t ∧ h = "Bearer " +:+ t) →
            coherent (mkWorld (App.initialState ls) true None ls hs)) as Hc.
  { intros hs Hhs. split; [done|]. split; [done|]. split; [|done].
    unfold known_filter. auto. }
  assert (∀ hs, (∀ h, hs !! "Authorization" = Some h →
                      ∃ t, ls !! "token" = Some t ∧ h = "Bearer " +:+ t) →
            sound_at coherent well_formed_request
              (App.mapEffect (App.initialState ls) ;;
               App.filterEffect (App.initialState ls))
              (mkWorld (App.initialState ls) false None ls hs)) as Hrest.
  { intros hs Hhs. specialize (Hc hs Hhs).
    pose proof Hc as (_ & _ & Hf & _).
    apply effects_bind.
    - exact (proj2 (loadSpots_sound (App.initialState ls) Hf _ Hc)).
    - exact (filterEffect_sound _ Hc). }
  unfold App.mountEffects, App.tokenEffect.
  change (token (App.initialState ls)) with (ls !! "token").
  destruct (ls !! "token") as [t|] eqn:Ht.
  - destruct (truthy t).
    + apply effects_bind.
      * constructor; [|constructor]. constructor.
        -- split; [by left|]. right. exists t. simpl. by rewrite lookup_insert_eq.
        -- intros o w Hw. by apply profile_closure_sound.
      * apply Hrest. intros h. rewrite lookup_insert_eq. intros [= <-]. by exists t.
    + apply effects_bind; [constructor|]. apply Hrest. by intros h.
  - apply effects_bind; [constructor|]. apply Hrest. by intros h.
Qed.

Lemma mount_sound (ls : gmap string string) :
  machine_sound coherent well_formed_request (App.mount ls).
Proof.
  unfold App.mount.
  destruct (mountEffects_sound ls) as [Hw He].
  destruct (App.mountEffects _ _) as [[[] w] es]. simpl in Hw, He.
  split; [done|]. by apply keeps_split.
Qed.

Lemma run_sound (evs : list App.event) (m m' : App.Machine) :
  machine_sound coherent well_formed_request m →
  App.run evs m = Some m' →
  machine_sound coherent well_formed_request m'.
Proof.
  revert m. induction evs as [|ev evs IH]; intros m Hm; simpl.
  - by intros [= <-].
  - destruct (App.step ev m) as [m1|] eqn:Hstep; [|done]. simpl.
    apply IH. by eapply step_sound.
Qed.

(** X1. In every state the event loop of [App.js] can reach from page
    load, the token cell equals the token in [localStorage]; the default
    [Authorization] header, when set, is "Bearer " followed by that token;
    and the filter cell holds "global", "own" or "friends". *)
Theorem reachable_worlds_coherent
    (ls : gmap string string) (evs : list App.event) (m : App.Machine) :
  App.run evs (App.mount ls) = Some m →
  token (state (App.world m)) = localStorage (App.world m) !! "token" ∧
  (∀ h, headers (App.world m) !! "Authorization" = Some h →
        ∃ t, token (state (App.world m)) = Some t ∧ h = "Bearer " +:+ t) ∧
  (mapFilter (state (App.world m)) = "global" ∨
   mapFilter (state (App.world m)) = "own" ∨
   mapFilter (state (App.world m)) = "friends").
Proof.
  intros Hrun.
  destruct (run_sound evs _ _ (mount_sound ls) Hrun) as [(H1 & H2 & H3 & _) _].
  done.
Qed.



End Sound.

Lemma reachable_worlds_coherent_witness :
  ∃ m, App.run (H := localEnv) stale_profile_run (App.mount (H := localEnv) ∅) = Some m ∧
       Client.token (Client.state (App.world m)) =
         Client.localStorage (App.world m) !! "token" ∧
       Client.mapFilter (Client.state (App.world m)) = "friends".
Proof.
  eexists. split; [vm_compute; reflexivity|]. split.
  - eapply (reachable_worlds_coherent (H := localEnv) ∅ stale_profile_run).
    vm_compute. reflexivity.
  - vm_compute. reflexivity.
Defined.


(* ===================================================================== *)
(** ** Single events of the loop of [App.js] *)
(* ===================================================================== *)

Section LoopFacts.
Import Client.
Context `{Env}.

(** X3. Page load of [App.js].  With a non-empty token in [localStorage]
    the client first sets the default header to "Bearer " followed by it
    and asks GET /auth/me; in every case it then requests the global spot
    list twice, once from the map hook and once from the filter hook, both
    under the header just set.  None of the cells the loop tracks changes
    before a response arrives (the spinner that [getCurrentLocation] turns
    on is a cell of the page layer), and every request leaves a closure
    waiting. *)
Theorem mount_requests (ls : gmap string string) :
  let auth := match ls !! "token" with
              | Some t => if truthy t then Some ("Bearer " +:+ t) else None
              | None => None
              end in
  let spots_request := mkRequest GET (API +:+ "/spots?filter_type=global") NoBody auth in
  App.sent (App.mount ls) =
    match auth with
    | Some _ => [mkRequest GET (API +:+ "/auth/me") NoBody auth; spots_request; spots_request]
    | None => [spots_request; spots_request]
    end ∧
  App.world (App.mount ls) =
    mkWorld (App.initialState ls) true None ls
            (match auth with
             | Some h => <["Authorization" := h]> ∅
             | None => ∅
             end) ∧
  length (App.pending (App.mount ls)) = length (App.sent (App.mount ls)).
Proof.
  unfold App.mount, App.mountEffects, App.tokenEffect.
  change (token (App.initialState ls)) with (ls !! "token").
  destruct (ls !! "token") as [t|]; [destruct (truthy t)|]; simpl;
    rewrite ?lookup_insert_eq, ?lookup_empty; done.
Qed.

(** X4. A click on a filter button, which only a render with a user shows,
    sets the filter cell to the button's literal and changes nothing else;
    when the map exists it sends exactly one
    GET /spots?filter_type=<literal> under the current default header, and
    no request at all when the filter already had that value. *)
Theorem filter_click_reloads
    (m : App.Machine) (b : App.filter_button) (u : UserData) :
  user (state (App.world m)) = Some u →
  mapInstanceRef (App.world m) = true →
  ∃ m',
    App.step (App.ClickFilter b) m = Some m' ∧
    App.world m' =
      with_state (with_mapFilter (filter_name b) (state (App.world m))) (App.world m) ∧
    App.sent m' =
      App.sent m ++
      (if bool_decide (mapFilter (state (App.world m)) = filter_name b) then []
       else [mkRequest GET (API +:+ "/spots?filter_type=" +:+ filter_name b) NoBody
                       (headers (App.world m) !! "Authorization")]) ∧
    length (App.pending m') - length (App.pending m) =
      length (App.sent m') - length (App.sent m).
Proof.
  intros Hu Hm. unfold App.step, App.on, App.filterButtons. rewrite Hu.
  destruct b; simpl; (eexists; split; [reflexivity|]);
    unfold App.commit, App.updateEffects, App.filterEffect, App.loadSpots; run_code;
    rewrite (bool_decide_eq_true_2 (token _ = token _)) by done;
    rewrite (bool_decide_eq_true_2 (user _ = user _)) by done;
    rewrite andb_true_r; case_bool_decide; run_code; rewrite ?Hm; run_code;
    rewrite ?length_app; simpl; (split; [done|]); (split; [done|]); lia.
Qed.

(** X5. A click on Logout clears the four credential places, resets the
    filter to "global" and, since the user cell changed, makes the filter
    hook send exactly one GET /spots?filter_type=global, which carries no
    [Authorization] header.  No profile request is sent. *)
Theorem logout_click_reloads (m : App.Machine) (u : UserData) :
  user (state (App.world m)) = Some u →
  mapInstanceRef (App.world m) = true →
  ∃ m' k,
    App.step App.ClickLogout m = Some m' ∧
    App.world m' = exec App.handleLogout (App.world m) ∧
    logged_out (App.world m') ∧
    mapFilter (state (App.world m')) = "global" ∧
    App.sent m' =
      App.sent m ++ [mkRequest GET (API +:+ "/spots?filter_type=global") NoBody None] ∧
    App.pending m' =
      App.pending m ++
      [App.mkInflight KSpots
         (mkRequest GET (API +:+ "/spots?filter_type=global") NoBody None) k].
Proof.
  intros Hu Hm. unfold App.step, App.on. rewrite Hu. simpl.
  eexists _, _. split; [reflexivity|].
  unfold App.commit, App.updateEffects, App.tokenEffect, App.filterEffect,
    App.handleLogout, App.loadSpots, logged_out.
  run_code. rewrite Hu.
  rewrite (bool_decide_eq_false_2 (Some u = None)) by done.
  rewrite andb_false_r.
  destruct (bool_decide (token (state (App.world m)) = None)); run_code;
    rewrite Hm; run_code; rewrite !lookup_delete_eq; repeat split.
Qed.

(** X6. A render without a user shows neither the filter buttons nor the
    add-spot, logout and star buttons: none of these clicks is an event of
    the loop while the user cell is empty. *)
Theorem logged_out_widgets_absent (m : App.Machine) :
  user (state (App.world m)) = None →
  App.step App.ClickAddSpot m = None ∧
  App.step App.ClickLogout m = None ∧
  (∀ b, App.step (App.ClickFilter b) m = None) ∧
  (∀ i, App.step (App.ClickStar i) m = None).
Proof.
  intros Hu. unfold App.step, App.on, App.filterButtons, App.starButtons.
  rewrite Hu. split; [done|]. split; [done|]. split.
  - by intros [].
  - intros i. by destruct (selectedSpot _).
Qed.

End LoopFacts.

Lemma filter_click_reloads_witness :
  Client.user (Client.state (App.world after_login)) = Some alice ∧
  ∃ m', App.step (H := localEnv) (App.ClickFilter App.MySpotsButton) after_login = Some m' ∧
        App.sent m' =
          App.sent after_login ++
          [Client.mkRequest Client.GET "http://localhost:8001/api/spots?filter_type=own"
                            Client.NoBody (Some "Bearer tok")].
Proof.
  split; [vm_compute; reflexivity|].
  destruct (filter_click_reloads (H := localEnv) after_login App.MySpotsButton alice)
    as (m' & Hstep & _ & Hsent & _).
  - vm_compute. reflexivity.
  - vm_compute. reflexivity.
  - exists m'. split; [exact Hstep|]. rewrite Hsent. vm_compute. reflexivity.
Defined.

Lemma logout_click_reloads_witness :
  ∃ m', App.step (H := localEnv) App.ClickLogout after_login = Some m' ∧
        logged_out (App.world m') ∧
        last (App.sent m') =
          Some (Client.mkRequest Client.GET
                  "http://localhost:8001/api/spots?filter_type=global"
                  Client.NoBody None).
Proof.
  destruct (logout_click_reloads (H := localEnv) after_login alice)
    as (m' & k & Hstep & _ & Hout & _ & Hsent & _).
  - vm_compute. reflexivity.
  - vm_compute. reflexivity.
  - exists m'. split; [exact Hstep|]. split; [exact Hout|].
    rewrite Hsent. apply last_snoc.
Defined.

Lemma logged_out_widgets_absent_witness :
  Client.user (Client.state (App.world (App.mount (H := localEnv) ∅))) = None ∧
  App.step (H := localEnv) (App.ClickStar 2) (App.mount (H := localEnv) ∅) = None.
Proof.
  split; [reflexivity|].
  apply (logged_out_widgets_absent (H := localEnv) (App.mount (H := localEnv) ∅)).
  reflexivity.
Defined.

(* ===================================================================== *)
(** ** Who writes the filter cell *)
(* ===================================================================== *)

Section FilterFrame.
Import Client.
Context `{Env}.

(** A closure that leaves the filter cell alone and emits nothing. *)
Lemma frames_final kd (r : request) (k : outcome (payload kd) → M unit) :
  (∀ o w, mapFilter (state (k o w).1.2) = mapFilter (state w) ∧ (k o w).2 = []) →
  frames (Http kd r k).
Proof.
  intros Hk. constructor. intros o w.
  destruct (Hk o w) as [Hf He]. rewrite He. split; [done|constructor].
Qed.

Lemma loadSpots_frame (props : State) (w : World) :
  Forall frames (App.loadSpots props w).2.
Proof.
  constructor; [|constructor]. apply frames_final. by intros [data|error] w'.
Qed.

Lemma fetchUserProfile_frame (w : World) :
  Forall frames (App.fetchUserProfile w).2.
Proof.
  constructor; [|constructor]. apply frames_final. by intros [data|error] w'.
Qed.

Lemma on_frame (ev : App.event) (props : State) (code : M unit) (w : World) :
  App.on ev props = Some code →
  Forall frames (code w).2.
Proof.
  destruct ev as [| b | | | | | fd v | | | i | | i | n kd o]; simpl.
  - destruct (user props); intros [= <-]. constructor.
  - unfold App.filterButtons. destruct (user props); [|done].
    destruct b; intros [= <-]; constructor.
  - destruct (user props); intros [= <-].
    unfold App.handleAddSpotClick. destruct (user props); run_code; [|constructor].
    destruct (_ && _); run_code; constructor.
  - destruct (user props); intros [= <-]. repeat constructor.
  - destruct (showAddForm props); intros [= <-].
    unfold App.handleCancelAdd. run_code. destruct (_ && _); run_code; constructor.
  - destruct (showAuthModal props); intros [= <-]. constructor.
  - destruct (showAuthModal props); [|done]. unfold App.typeAuthField.
    destruct fd; [| destruct (String.eqb _ _) |]; intros [= <-]; constructor.
  - destruct (showAuthModal props); intros [= <-]. constructor.
  - destruct (showAuthModal props && negb (loading props)); intros [= <-].
    destruct (String.eqb _ _);
      (constructor; [|constructor]; constructor;
       intros [data|error] w'; by split; [|repeat constructor]).
  - destruct (spots props !! i); intros [= <-]. constructor.
  - destruct (selectedSpot props); intros [= <-]. constructor.
  - unfold App.starButtons.
    destruct (selectedSpot props) as [spot|]; [|done].
    destruct (user props) as [u|] eqn:Hu; [|done].
    rewrite list_lookup_fmap.
    destruct (App.starValues !! i) as [star|]; intros [= <-].
    unfold App.handleRateSpot. rewrite Hu.
    constructor; [|constructor]. constructor.
    intros [[]|error] w'; [|by split; [|repeat constructor]].
    split; [done|]. constructor; [constructor|].
    apply (loadSpots_frame props w').
  - done.
Qed.

(** The hooks write no state cell; their closures keep the filter. *)
Lemma updateEffects_frame (before after : State) (w : World) :
  state (App.updateEffects before after w).1.2 = state w ∧
  Forall frames (App.updateEffects before after w).2.
Proof.
  unfold App.updateEffects, App.tokenEffect, App.filterEffect.
  destruct (bool_decide (token before = token after));
    [|destruct (token after) as [t|]; [destruct (truthy t)|]];
    destruct (_ && _); run_code;
    try destruct (mapInstanceRef w); run_code; (split; [done|]);
    repeat first [ done
                 | apply Forall_nil
                 | apply Forall_cons; split
                 | apply frames_final; by intros [?|?] ? ].
Qed.

Lemma frames_http_inv kd (r : request) (k : outcome (payload kd) → M unit) :
  frames (Http kd r k) →
  ∀ o w, mapFilter (state (k o w).1.2) = mapFilter (state w) ∧
         Forall frames (k o w).2.
Proof.
  intros Hk.
  refine (match Hk in frames e
                return match e with
                       | Http kd r k =>
                           ∀ o w, mapFilter (state (k o w).1.2) = mapFilter (state w) ∧
                                  Forall frames (k o w).2
                       | _ => True
                       end
          with
          | frames_http _ _ _ Hcl => Hcl
          | _ => Logic.I
          end).
Qed.

Lemma frame_split (es : list effect) :
  Forall frames es →
  Forall (λ fl, ∀ o w,
            mapFilter (state (App.i_resume fl o w).1.2) = mapFilter (state w) ∧
            Forall frames (App.i_resume fl o w).2)
         (omap App.inflight_of es).
Proof.
  induction es as [|e es IH]; intros Hes; [constructor|].
  apply Forall_cons_1 in Hes as [He Hes].
  destruct e as [kd r k | |]; simpl; [|by apply IH..].
  constructor; [|by apply IH].
  intros o w. simpl. by apply (frames_http_inv kd r k).
Qed.

Lemma on_filter (ev : App.event) (props : State) (code : M unit) (w : World) :
  App.on ev props = Some code →
  mapFilter (state (code w).1.2) = filter_after ev (mapFilter (state w)).
Proof.
  destruct ev as [| b | | | | | fd v | | | i | | i | n kd o]; simpl.
  - by destruct (user props); intros [= <-].
  - unfold App.filterButtons. destruct (user props); [|done].
    by destruct b; intros [= <-].
  - destruct (user props); intros [= <-].
    unfold App.handleAddSpotClick. destruct (user props); run_code; [|done].
    by destruct (_ && _).
  - by destruct (user props); intros [= <-].
  - destruct (showAddForm props); intros [= <-].
    unfold App.handleCancelAdd. run_code. by destruct (_ && _).
  - by destruct (showAuthModal props); intros [= <-].
  - destruct (showAuthModal props); [|done]. unfold App.typeAuthField.
    by destruct fd; [| destruct (String.eqb _ _) |]; intros [= <-].
  - by destruct (showAuthModal props); intros [= <-].
  - destruct (showAuthModal props && negb (loading props)); intros [= <-].
    by destruct (String.eqb _ _).
  - by destruct (spots props !! i); intros [= <-].
  - by destruct (selectedSpot props); intros [= <-].
  - unfold App.starButtons.
    destruct (selectedSpot props) as [spot|]; [|done].
    destruct (user props) as [u|] eqn:Hu; [|done].
    rewrite list_lookup_fmap.
    destruct (App.starValues !! i) as [star|]; intros [= <-].
    unfold App.handleRateSpot. by rewrite Hu.
  - done.
Qed.

Lemma commit_frame (m : App.Machine) (code : M unit) :
  closures_keep_filter m →
  Forall frames (code (App.world m)).2 →
  closures_keep_filter (App.commit m code) ∧
  state (App.world (App.commit m code)) = state (code (App.world m)).1.2.
Proof.
  intros Hm Hcode. unfold App.commit, closures_keep_filter.
  destruct (code (App.world m)) as [[[] w1] e1]. simpl in Hcode.
  pose proof (updateEffects_frame (state (App.world m)) (state w1) w1) as Hup.
  destruct (App.updateEffects _ _ w1) as [[[] w2] e2]. simpl in Hup. simpl.
  split; [|exact (proj1 Hup)].
  apply Forall_app. split; [done|]. apply frame_split.
  apply Forall_app. split; [done|]. exact (proj2 Hup).
Qed.

Lemma mount_frame (ls : gmap string string) : closures_keep_filter (App.mount ls).
Proof.
  unfold App.mount, closures_keep_filter.
  assert (Forall frames
            (App.mountEffects (App.initialState ls) (App.initialWorld ls)).2) as Hes.
  { unfold App.mountEffects, App.tokenEffect, App.mapEffect, App.filterEffect.
    change (token (App.initialState ls)) with (ls !! "token").
    destruct (ls !! "token") as [t|]; [destruct (truthy t)|]; run_code;
      repeat first [ done
                   | apply Forall_nil
                   | apply Forall_cons; split
                   | apply frames_final; by intros [?|?] ? ]. }
  destruct (App.mountEffects _ _) as [[[] w] es]. simpl in *.
  by apply frame_split.
Qed.

Lemma step_frame (ev : App.event) (m m' : App.Machine) :
  closures_keep_filter m →
  App.step ev m = Some m' →
  closures_keep_filter m' ∧
  mapFilter (state (App.world m')) = filter_after ev (mapFilter (state (App.world m))).
Proof.
  intros Hm Hstep.
  assert (∀ code, App.on ev (state (App.world m)) = Some code →
                  App.commit m code = m' →
                  closures_keep_filter m' ∧
                  mapFilter (state (App.world m')) =
                    filter_after ev (mapFilter (state (App.world m)))) as Hui.
  { intros code Hon <-.
    destruct (commit_frame m code Hm) as [Hc Hst].
    - by eapply on_frame.
    - split; [done|]. rewrite Hst. by eapply on_filter. }
  unfold App.step in Hstep.
  destruct ev as [| b | | | | | fd v | | | i | | i | n kd o]; cbv beta iota in Hstep;
    try (destruct (App.on _ _) as [code|] eqn:Hon; [|done];
         simpl in Hstep; injection Hstep as Hstep; by eapply Hui).
  clear Hui.
  destruct (App.pending m !! n) as [fl|] eqn:Hn; [|done]. simpl in Hstep.
  destruct (App.resume fl kd o) as [code|] eqn:Hres; [|done]. simpl in Hstep.
  injection Hstep as <-.
  assert (∀ w, mapFilter (state (code w).1.2) = mapFilter (state w) ∧
               Forall frames (code w).2) as Hcode.
  { pose proof (Forall_lookup_1 _ _ _ _ Hm Hn) as Hfl. simpl in Hfl.
    unfold App.resume in Hres.
    destruct (decide (kd = App.i_kind fl)) as [e|]; [|done].
    injection Hres as <-. intros w. apply Hfl. }
  destruct (commit_frame (App.mkMachine (App.world m) (delete n (App.pending m))
                                        (App.sent m)) code) as [Hc Hst].
  - by apply Forall_delete.
  - exact (proj2 (Hcode (App.world m))).
  - split; [done|]. rewrite Hst. simpl. exact (proj1 (Hcode (App.world m))).
Qed.

Lemma run_frame (evs : list App.event) (m m' : App.Machine) :
  closures_keep_filter m →
  App.run evs m = Some m' →
  closures_keep_filter m'.
Proof.
  revert m. induction evs as [|ev evs IH]; intros m Hm; simpl.
  - by intros [= <-].
  - destruct (App.step ev m) as [m1|] eqn:Hstep; [|done]. simpl.
    apply IH. by eapply step_frame.
Qed.

(** X20. Along every run of [App.js] the filter cell is written by the
    filter buttons and by Logout only: a click on a filter button sets it
    to that button's literal, Logout sets it to "global", and every other
    event leaves it as it is, the arrival of any response included,
    whichever request it answers and however late it comes. *)
Theorem filter_written_by_buttons_only
    (ls : gmap string string) (evs : list App.event) (m m' : App.Machine)
    (ev : App.event) :
  App.run evs (App.mount ls) = Some m →
  App.step ev m = Some m' →
  mapFilter (state (App.world m')) =
    match ev with
    | App.ClickFilter App.GlobalButton => "global"
    | App.ClickFilter App.MySpotsButton => "own"
    | App.ClickFilter App.FriendsButton => "friends"
    | App.ClickLogout => "global"
    | _ => mapFilter (state (App.world m))
    end.
Proof.
  intros Hrun Hstep.
  pose proof (run_frame evs _ _ (mount_frame ls) Hrun) as Hm.
  destruct (step_frame ev m m' Hm Hstep) as [_ Hf]. rewrite Hf.
  destruct ev as [| [] | | | | | | | | | | |]; reflexivity.
Qed.

End FilterFrame.

Lemma filter_written_by_buttons_only_witness :
  ∃ m',
    App.step (H := localEnv)
      (App.Settle 2 Client.KUser (Client.Rejected (Client.mkHttpError None None)))
      after_friends_click = Some m' ∧
    Client.mapFilter (Client.state (App.world m')) =
      Client.mapFilter (Client.state (App.world after_friends_click)).
Proof.
  destruct (App.step (H := localEnv)
              (App.Settle 2 Client.KUser (Client.Rejected (Client.mkHttpError None None)))
              after_friends_click) as [m'|] eqn:Hstep.
  - exists m'. split; [reflexivity|].
    apply (filter_written_by_buttons_only (H := localEnv) ∅
             [ App.ClickLoginSignUp; App.SubmitAuthForm;
               App.Settle 2 Client.KAuth (Client.Resolved (Client.mkAuthData "tok" alice));
               App.ClickFilter App.FriendsButton ]
             after_friends_click m'
             (App.Settle 2 Client.KUser (Client.Rejected (Client.mkHttpError None None))));
      [vm_compute; reflexivity | exact Hstep].
  - vm_compute in Hstep. discriminate Hstep.
Defined.

(* ===================================================================== *)
(** ** More on the handlers of [App.js] and of the other revisions *)
(* ===================================================================== *)

Section HandlerFacts.
Import Client.
Context `{Env}.

(** X7. When POST /auth/login or POST /auth/register fails, the closure of
    [handleLogin] or [handleRegister] changes nothing but the [loading]
    cell, which it clears: no credential is stored, the modal stays open
    and the form keeps what was typed.  The dialog shows the server's
    [detail] when there is a non-empty one and "Login failed" or
    "Registration failed" otherwise.  After a success [loading] is cleared
    as well and the modal is closed. *)
Theorem failed_login_changes_nothing (props : State) (w : World) :
  (∃ k,
     App.handleLogin props w =
       (tt, with_state (with_loading true (state w)) w,
        [Http KAuth
           (mkRequest POST (API +:+ "/auth/login")
              (Credentials (f_username (authForm props)) (f_password (authForm props)))
              (headers w !! "Authorization")) k]) ∧
     (∀ error w',
        k (Rejected error) w' =
          (tt, with_state (with_loading false (state w')) w',
           [Alert (match detail error with
                   | Some d => if String.eqb d "" then "Login failed" else d
                   | None => "Login failed"
                   end)])) ∧
     (∀ data w',
        loading (state (exec (k (Resolved data)) w')) = false ∧
        showAuthModal (state (exec (k (Resolved data)) w')) = false ∧
        authForm (state (exec (k (Resolved data)) w')) = emptyAuthForm)) ∧
  (∃ k,
     App.handleRegister props w =
       (tt, with_state (with_loading true (state w)) w,
        [Http KAuth
           (mkRequest POST (API +:+ "/auth/register")
              (Registration (f_username (authForm props)) (f_email (authForm props))
                            (f_password (authForm props)))
              (headers w !! "Authorization")) k]) ∧
     (∀ error w',
        k (Rejected error) w' =
          (tt, with_state (with_loading false (state w')) w',
           [Alert (match detail error with
                   | Some d => if String.eqb d "" then "Registration failed" else d
                   | None => "Registration failed"
                   end)])) ∧
     (∀ data w',
        loading (state (exec (k (Resolved data)) w')) = false ∧
        showAuthModal (state (exec (k (Resolved data)) w')) = false ∧
        authForm (state (exec (k (Resolved data)) w')) = emptyAuthForm)).
Proof.
  split; (eexists; split; [reflexivity|]; split;
          [intros [[d|] st] w'; unfold or_else, truthy; simpl;
             [by destruct (String.eqb d "")|done]
          |by intros data w']).
Qed.

(** X8. [handleAddSpotClick] with a user and a map: when no marker stands
    on the map it places one at the known location, or at the default
    centre when none is known, and copies that position into the draft;
    when a marker already stands there, marker and draft stay as they are.
    In both cases the form opens and the spot details close, and nothing
    is sent.  [handleCancelAdd] right after removes the marker and closes
    the form again. *)
Theorem add_spot_marker_placed_once (props : State) (w : World) (u : UserData) :
  user props = Some u →
  mapInstanceRef w = true →
  let w1 := exec (App.handleAddSpotClick props) w in
  let position := (from_option fst default_latitude (currentLocation props),
                   from_option snd default_longitude (currentLocation props)) in
  effects_of (App.handleAddSpotClick props) w = [] ∧
  showAddForm (state w1) = true ∧
  selectedSpot (state w1) = None ∧
  match addSpotMarkerRef w with
  | None =>
      addSpotMarkerRef w1 = Some position ∧
      latitude (newSpot (state w1)) = position.1 ∧
      longitude (newSpot (state w1)) = position.2 ∧
      title (newSpot (state w1)) = title (newSpot (state w)) ∧
      description (newSpot (state w1)) = description (newSpot (state w)) ∧
      photo (newSpot (state w1)) = photo (newSpot (state w))
  | Some standing =>
      addSpotMarkerRef w1 = Some standing ∧
      newSpot (state w1) = newSpot (state w)
  end ∧
  addSpotMarkerRef (exec App.handleCancelAdd w1) = None ∧
  showAddForm (state (exec App.handleCancelAdd w1)) = false ∧
  newSpot (state (exec App.handleCancelAdd w1)) = newSpot (state w1).
Proof.
  intros Hu Hm. unfold App.handleAddSpotClick, App.handleCancelAdd.
  rewrite Hu. run_code. rewrite Hm.
  destruct (addSpotMarkerRef w) as [standing|] eqn:Hmarker; run_code;
    rewrite ?Hm, ?Hmarker; run_code; repeat split.
Qed.

(** X9. [loadSpots] of the revision with the [AuthProvider]: a failed
    GET /spots leaves the world as it is, so the spots already shown stay,
    and a toast appears only when the status is 401; a success stores the
    response data. *)
Theorem provider_loadSpots_keeps_spots (props : State) (w : World) :
  ∃ k,
    AuthApp.loadSpots props w =
      (tt, w, [Http KSpots
                 (mkRequest GET (API +:+ "/spots?filter_type=" +:+ mapFilter props) NoBody
                            (headers w !! "Authorization")) k]) ∧
    (∀ error w',
       k (Rejected error) w' =
         (tt, w',
          if bool_decide (status error = Some 401%nat)
          then [Toast toast_error "Please log in to view filtered spots"]
          else [])) ∧
    (∀ data w', k (Resolved data) w' = (tt, with_state (with_spots data (state w')) w', [])).
Proof.
  eexists. split; [reflexivity|]. split; [|done].
  intros error w'. simpl. by destruct (bool_decide _).
Qed.

(** X10. [handleSubmit] of the auth modal, revision with the
    [AuthProvider]: when the request fails the world stays as it is, so
    the modal stays open with the form as typed, and a toast shows the
    server's [detail] or the fallback for the mode; when it succeeds the
    modal is closed and the form cleared. *)
Theorem provider_failed_submit_keeps_modal (props : State) (w : World) :
  ∃ k,
    AuthApp.handleSubmit props w =
      (tt, w,
       [Http KAuth
          (mkRequest POST
             (API +:+ (if String.eqb (authMode props) "login"
                       then "/auth/login" else "/auth/register"))
             (if String.eqb (authMode props) "login"
              then Credentials (f_username (authForm props)) (f_password (authForm props))
              else Registration (f_username (authForm props)) (f_email (authForm props))
                                (f_password (authForm props)))
             (headers w !! "Authorization")) k]) ∧
    (∀ error w',
       k (Rejected error) w' =
         (tt, w',
          [Toast toast_error
             (or_else (detail error)
                (if String.eqb (authMode props) "login"
                 then "Login failed" else "Registration failed"))])) ∧
    (∀ data w',
       showAuthModal (state (exec (k (Resolved data)) w')) = false ∧
       authForm (state (exec (k (Resolved data)) w')) = emptyAuthForm).
Proof.
  unfold AuthApp.handleSubmit.
  destruct (String.eqb (authMode props) "login");
    (eexists; split; [reflexivity|]; split; [|done]);
    intros error [st rf mk ls hs]; reflexivity.
Qed.

(** X11. [loadSpots] of the first revision asks GET /spots with no filter
    parameter; a failure leaves the world as it is, a success stores the
    response data.  Its [handleAddSpotClick] has no login check: also with
    an empty user cell it opens the form and sends nothing. *)
Theorem first_revision_loadSpots (props : State) (w : World) :
  (∃ k,
     FirstApp.loadSpots w =
       (tt, w, [Http KSpots (mkRequest GET (API +:+ "/spots") NoBody
                                       (headers w !! "Authorization")) k]) ∧
     (∀ error w', k (Rejected error) w' = (tt, w', [])) ∧
     (∀ data w', k (Resolved data) w' = (tt, with_state (with_spots data (state w')) w', []))) ∧
  effects_of (FirstApp.handleAddSpotClick props) w = [] ∧
  showAddForm (state (exec (FirstApp.handleAddSpotClick props) w)) = true ∧
  showAuthModal (state (exec (FirstApp.handleAddSpotClick props) w)) =
    showAuthModal (state w).
Proof.
  split; [eexists; split; [reflexivity|]; by split|].
  unfold FirstApp.handleAddSpotClick. run_code.
  destruct (mapInstanceRef w && _); run_code; repeat split.
Qed.

End HandlerFacts.

Lemma add_spot_marker_placed_once_witness :
  Client.addSpotMarkerRef
    (Client.exec (App.handleAddSpotClick (Client.state (App.world after_login)))
                 (App.world after_login)) =
    Some (Client.default_latitude, Client.default_longitude) ∧
  Client.addSpotMarkerRef
    (Client.exec App.handleCancelAdd
       (Client.exec (App.handleAddSpotClick (Client.state (App.world after_login)))
                    (App.world after_login))) = None.
Proof.
  destruct (add_spot_marker_placed_once
              (Client.state (App.world after_login)) (App.world after_login) alice)
    as (_ & _ & _ & Hplaced & Hgone & _).
  - vm_compute. reflexivity.
  - vm_compute. reflexivity.
  - split; [|exact Hgone]. exact (proj1 Hplaced).
Defined.

(* ===================================================================== *)
(** ** The add-spot form, the friends modal and geolocation *)
(* ===================================================================== *)

Ltac run_page :=
  cbv [mbind mret AppModals.PM_bind AppModals.PM_ret AppModals.lift AppModals.pass
       AppModals.provided AppModals.set_cells AppModals.setShowFriendsModal
       AppModals.setFriends AppModals.setFriendRequests AppModals.setLocationLoading
       AppModals.setNewSpot AppModals.setCurrentLocation AppModals.emit_action
       AppModals.get_both AppModals.post_then AppModals.post_spot
       AppModals.getCurrentPosition AppModals.throw AppModals.run_on
       AppModals.actions_of AppModals.base_requests AppModals.dialogs];
  run_code.

Section ModalFacts.
Import Client AppModals.
Context `{Env}.

(** X12. [sendFriendRequest] posts to /friends/request/<userId> without a
    body.  On success it shows a dialog and runs [searchUsers] again with
    the query of the render that showed the button: a query shorter than
    two characters empties the results without a request, a longer one
    sends the search again.  On failure it shows the server's [detail], or
    "Error sending friend request" when there is none, and changes
    nothing. *)
Theorem friend_request_refreshes_search (props : State) (userId : string) (w : World) :
  ∃ k,
    sendFriendRequest props userId w =
      (tt, w, [Http KUnit
                 (mkRequest POST (API +:+ "/friends/request/" +:+ userId) NoBody
                            (headers w !! "Authorization")) k]) ∧
    (∀ w',
       k (Resolved tt) w' =
         (tt, exec (App.searchUsers (searchQuery props)) w',
          Alert "Friend request sent!" ::
          effects_of (App.searchUsers (searchQuery props)) w') ∧
       if (String.length (searchQuery props) <? 2)%nat then
         exec (k (Resolved tt)) w' = with_state (with_searchResults [] (state w')) w' ∧
         requests_in (effects_of (k (Resolved tt)) w') = []
       else
         exec (k (Resolved tt)) w' = w' ∧
         requests_in (effects_of (k (Resolved tt)) w') =
           [mkRequest GET (API +:+ "/users/search?q=" +:+ searchQuery props) NoBody
                      (headers w' !! "Authorization")]) ∧
    (∀ error w',
       k (Rejected error) w' =
         (tt, w', [Alert (or_else (detail error) "Error sending friend request")])).
Proof.
  eexists. split; [reflexivity|]. split; [|done].
  intros w'. split.
  - unfold App.searchUsers.
    by destruct (negb (truthy (searchQuery props)) || _).
  - unfold App.searchUsers.
    by destruct (searchQuery props) as [|a [|b q]].
Qed.

(** X13. [loadFriends] does nothing for a render without a user.  With a
    user it sends GET /friends and GET /friends/requests together, under
    the same header; the two lists are stored only when both requests
    succeed, and when either fails the page stays as it is, old lists
    included. *)
Theorem loadFriends_both_or_nothing (props : State) (p : Page) :
  match user props with
  | None => loadFriends props p = (tt, p, [])
  | Some _ =>
      ∃ k,
        loadFriends props p =
          (tt, p,
           [GetBoth
              (mkRequest GET (API +:+ "/friends") NoBody
                         (headers (base p) !! "Authorization"))
              (mkRequest GET (API +:+ "/friends/requests") NoBody
                         (headers (base p) !! "Authorization")) k]) ∧
        (∀ friendsRes requestsRes p',
           k (Resolved (friendsRes, requestsRes)) p' =
             (tt,
              mkPage (base p')
                     (mkCells (showFriendsModal (cells p')) friendsRes requestsRes
                              (locationLoading (cells p'))),
              [])) ∧
        (∀ error p', k (Rejected error) p' = (tt, p', []))
  end.
Proof.
  unfold loadFriends. destruct (user props); [|done].
  eexists. split; [reflexivity|]. split; [done|]. by intros error [].
Qed.

(** X14. [handleOpenFriends] for a render without a user only opens the
    auth modal: the friends modal stays closed and nothing is sent.  With a
    user it opens the friends modal and loads the friends. *)
Theorem open_friends_needs_user (props : State) (p : Page) :
  match user props with
  | None =>
      handleOpenFriends props p =
        (tt, mkPage (with_state (with_showAuthModal true (state (base p))) (base p))
                    (cells p), [])
  | Some _ =>
      run_on (handleOpenFriends props) p =
        mkPage (base p)
               (mkCells true (friends (cells p)) (friendRequests (cells p))
                        (locationLoading (cells p))) ∧
      ∃ k,
        actions_of (handleOpenFriends props) p =
          [GetBoth
             (mkRequest GET (API +:+ "/friends") NoBody
                        (headers (base p) !! "Authorization"))
             (mkRequest GET (API +:+ "/friends/requests") NoBody
                        (headers (base p) !! "Authorization")) k]
  end.
Proof.
  unfold handleOpenFriends, loadFriends. destruct (user props); [|done].
  split; [done|]. by eexists.
Qed.

(** X15. [acceptFriendRequest] posts to /friends/accept/<requestId>.  On
    success it shows a dialog and reloads the friends through [loadFriends]
    of the render that showed the button; on failure it shows the fixed
    message "Error accepting friend request", whatever the server said,
    and the page stays as it is. *)
Theorem accept_reloads_friends (props : State) (requestId : string) (p : Page) :
  ∃ k,
    acceptFriendRequest props requestId p =
      (tt, p,
       [PostThen
          (mkRequest POST (API +:+ "/friends/accept/" +:+ requestId) NoBody
                     (headers (base p) !! "Authorization")) k]) ∧
    (∀ p',
       k (Resolved tt) p' =
         (tt, p',
          Base (Alert "Friend request accepted!") :: actions_of (loadFriends props) p')) ∧
    (∀ error p',
       k (Rejected error) p' =
         (tt, p', [Base (Alert "Error accepting friend request")])).
Proof.
  eexists. split; [reflexivity|]. split.
  - intros [w c]. unfold loadFriends. by destruct (user props).
  - by intros error [w c].
Qed.

(** X16. [handleSubmitSpot] of [App.js].  With an empty title or an empty
    description it shows a dialog, sends nothing and changes nothing; a
    photo is not required.  Otherwise it posts the draft of the render to
    /spots.  On success the draft is emptied, its position reset to the
    known location or the default centre, the form closed, the marker
    removed when the map exists, a dialog shown and the spot list requested
    again with the filter of that render.  On failure a dialog is shown and
    the page stays as it is, the form open and the draft as typed. *)
Theorem submit_spot_outcomes (props : State) (p : Page) :
  if negb (truthy (title (newSpot props))) || negb (truthy (description (newSpot props)))
  then
    handleSubmitSpot props p =
      (tt, p, [Base (Alert "Please fill in title and description")])
  else
    ∃ k,
      handleSubmitSpot props p =
        (tt, p,
         [PostSpot (API +:+ "/spots") (newSpot props)
                   (headers (base p) !! "Authorization") k]) ∧
      (∀ error p',
         k (Rejected error) p' =
           (tt, p', [Base (Alert "Error creating spot. Please try again.")])) ∧
      (∀ p',
         let p1 := run_on (k (Resolved tt)) p' in
         cells p1 = cells p' ∧
         newSpot (state (base p1)) =
           mkNewSpot "" "" ""
             (from_option fst default_latitude (currentLocation props))
             (from_option snd default_longitude (currentLocation props)) ∧
         showAddForm (state (base p1)) = false ∧
         addSpotMarkerRef (base p1) =
           (if mapInstanceRef (base p') then None else addSpotMarkerRef (base p')) ∧
         dialogs (actions_of (k (Resolved tt)) p') = ["Spot added successfully!"] ∧
         base_requests (actions_of (k (Resolved tt)) p') =
           [mkRequest GET (API +:+ "/spots?filter_type=" +:+ mapFilter props) NoBody
                      (headers (base p') !! "Authorization")]).
Proof.
  unfold handleSubmitSpot.
  destruct (negb (truthy (title (newSpot props))) || _); [by destruct p|].
  eexists. split; [reflexivity|]. split; [by intros error [w c]|].
  intros [w c]. unfold App.loadSpots. run_page.
  destruct (addSpotMarkerRef w) as [marker|] eqn:Hmarker, (mapInstanceRef w);
    run_page; rewrite ?Hmarker; repeat split.
Qed.


(** X18. [useMyLocation].  With a known location it copies that position
    into the draft, keeps title, description and photo, moves the marker
    there when one stands on the map, and shows a dialog; with a marker
    but no map instance the handler throws instead of showing the dialog.
    Without a known location it does what [getCurrentLocation] does and
    leaves the draft alone. *)
Theorem use_my_location_copies_position
    (geolocation : bool) (props : State) (p : Page) :
  match currentLocation props with
  | None => useMyLocation geolocation props p = getCurrentLocation geolocation p
  | Some (lat, lng) =>
      let p1 := run_on (useMyLocation geolocation props) p in
      cells p1 = cells p ∧
      newSpot (state (base p1)) =
        mkNewSpot (title (newSpot (state (base p))))
                  (description (newSpot (state (base p))))
                  (photo (newSpot (state (base p)))) lat lng ∧
      addSpotMarkerRef (base p1) = (λ _, (lat, lng)) <$> addSpotMarkerRef (base p) ∧
      actions_of (useMyLocation geolocation props) p =
        match addSpotMarkerRef (base p), mapInstanceRef (base p) with
        | Some _, false => [Uncaught "TypeError"]
        | _, _ => [Base (Alert "Location updated to your current position!")]
        end
  end.
Proof.
  unfold useMyLocation. destruct (currentLocation props) as [[lat lng]|]; [|done].
  destruct p as [w c]. run_page.
  destruct (addSpotMarkerRef w) as [marker|] eqn:Hmarker; run_page;
    rewrite ?Hmarker; [|done].
  destruct (mapInstanceRef w); run_page; rewrite ?Hmarker; done.
Qed.

(** X19. [handleSubmitSpot] of the first revision requires a photo besides
    title and description.  After a successful POST it closes the form and
    empties the draft without a dialog; it then removes the marker and
    requests GET /spots, except that with a marker and no map instance the
    removal throws, the dialog of the [catch] appears and no request is
    sent. *)
Theorem first_revision_submit_spot (props : State) (p : Page) :
  if negb (truthy (title (newSpot props))) ||
     negb (truthy (description (newSpot props))) ||
     negb (truthy (photo (newSpot props)))
  then
    FirstApp.handleSubmitSpot props p =
      (tt, p, [Base (Alert "Please fill in all fields and upload a photo")])
  else
    ∃ k,
      FirstApp.handleSubmitSpot props p =
        (tt, p,
         [PostSpot (API +:+ "/spots") (newSpot props)
                   (headers (base p) !! "Authorization") k]) ∧
      (∀ error p',
         k (Rejected error) p' =
           (tt, p', [Base (Alert "Error creating spot. Please try again.")])) ∧
      (∀ p',
         let p1 := run_on (k (Resolved tt)) p' in
         showAddForm (state (base p1)) = false ∧
         title (newSpot (state (base p1))) = "" ∧
         match addSpotMarkerRef (base p'), mapInstanceRef (base p') with
         | Some marker, false =>
             addSpotMarkerRef (base p1) = Some marker ∧
             dialogs (actions_of (k (Resolved tt)) p') =
               ["Error creating spot. Please try again."] ∧
             base_requests (actions_of (k (Resolved tt)) p') = []
         | _, _ =>
             addSpotMarkerRef (base p1) = None ∧
             dialogs (actions_of (k (Resolved tt)) p') = [] ∧
             base_requests (actions_of (k (Resolved tt)) p') =
               [mkRequest GET (API +:+ "/spots") NoBody
                          (headers (base p') !! "Authorization")]
         end).
Proof.
  unfold FirstApp.handleSubmitSpot.
  destruct (negb (truthy (title (newSpot props))) || _ || _); [by destruct p|].
  eexists. split; [reflexivity|]. split; [by intros error [w c]|].
  intros [w c]. unfold FirstApp.loadSpots. run_page.
  destruct (addSpotMarkerRef w) as [marker|] eqn:Hmarker; run_page.
  - destruct (mapInstanceRef w); run_page; rewrite ?Hmarker; repeat split.
  - rewrite Hmarker. repeat split.
Qed.

End ModalFacts.
